(** * The Ahoy gateway daemon, [tools/rpi/ahoy.py]

    A shallow embedding of the gateway's orchestration code: the command
    channel listener [mqtt_on_command], the poll orchestrator
    [poll_inverter] / [main_loop], the status publisher
    [mqtt_send_status], and the start-up and interrupt handling of the
    [__main__] block.

    The radio driver, the [hoymiles] protocol library and the paho bus
    client are external collaborators.  Pure collaborator functions are
    [Variable]s of the section [Gateway]; what a collaborator answers at
    run time (radio reception, the wall clock, an interrupt) is read from
    an explicit environment record [Env]; every call the gateway makes on a
    collaborator is appended to the event log of the program state.

    Modelling choices: times and readings are rationals (float rounding is
    not modelled); console output is left out; the listener runs atomically
    with respect to the poll loop.  The failures of a collaborator that are
    modelled are: [radio.begin] answering false, [mqtt_client.connect]
    raising, [get_payload] raising an [Exception], and an interrupt during
    a transaction or a sleep.  Every other collaborator call
    ([InverterTransaction], [rxtx], [decode], [publish], [subscribe] on a
    client, [frame_payload]) is taken to return: what is proved about a run
    that returns holds for the runs of the program in which these calls
    return. *)

From Stdlib Require Import ZArith QArith Qround Lqa Strings.Byte Ascii String Lia.
From stdpp Require Import gmap strings list fin_maps pretty.

(** ** Python values and built-ins used by the source *)

Module Py.

(** A Python [str] is a sequence of Unicode code points, a [bytes] object a
    sequence of octets. *)
Abbreviation codepoint := N (only parsing).
Abbreviation pystr := (list N) (only parsing).
Abbreviation bytes := (list byte) (only parsing).

(** String literals of the source. *)
Definition u (s : string) : pystr := map N_of_ascii (list_ascii_of_string s).

(** The exceptions that can leave the modelled code. *)
Inductive exn :=
| UnboundLocalError
| UnicodeDecodeError
| StructError
| ValueError
| IndexError
| KeyError
| AttributeError
| RuntimeError
| OSError
| KeyboardInterrupt
| SystemExit.

#[export] Instance exn_eq_dec : EqDecision exn.
Proof. solve_decision. Defined.

(** [str(n)] and [f'{n}'] for an integer. *)
Definition str_of_int (z : Z) : pystr := u (pretty z).
Definition str_of_nat (n : nat) : pystr := u (pretty n).

(** [int(x)] for a float: truncation towards zero. *)
Definition py_int (x : Q) : Z := Z.quot (Qnum x) (Zpos (Qden x)).

(** [x % y] for floats: the result takes the sign of the divisor. *)
Definition py_mod (x y : Q) : Q := (x - inject_Z (Qfloor (x / y)) * y)%Q.

(** [bytes.decode('utf-8')], strict: [None] stands for UnicodeDecodeError.
    Only shortest-form sequences are accepted, surrogates and code points
    above U+10FFFF are rejected. *)
Definition is_cont (b : N) : bool := ((128 <=? b) && (b <=? 191))%N.
Definition in_range (lo hi b : N) : bool := ((lo <=? b) && (b <=? hi))%N.

Fixpoint utf8_decode_go (skip : nat) (bs : list N) : option pystr :=
  match bs with
  | [] => Some []
  | b0 :: rest =>
      match skip with
      | S k => utf8_decode_go k rest
      | O =>
          if (b0 <? 128)%N then cons b0 <$> utf8_decode_go 0 rest
          else if in_range 194 223 b0 then
            match rest with
            | b1 :: _ =>
                if is_cont b1
                then cons ((b0 - 192) * 64 + (b1 - 128))%N <$> utf8_decode_go 1 rest
                else None
            | _ => None
            end
          else if in_range 224 239 b0 then
            match rest with
            | b1 :: b2 :: _ =>
                if in_range (if (b0 =? 224)%N then 160 else 128)
                            (if (b0 =? 237)%N then 159 else 191) b1
                   && is_cont b2
                then cons ((b0 - 224) * 4096 + (b1 - 128) * 64 + (b2 - 128))%N
                       <$> utf8_decode_go 2 rest
                else None
            | _ => None
            end
          else if in_range 240 244 b0 then
            match rest with
            | b1 :: b2 :: b3 :: _ =>
                if in_range (if (b0 =? 240)%N then 144 else 128)
                            (if (b0 =? 244)%N then 143 else 191) b1
                   && is_cont b2 && is_cont b3
                then cons ((b0 - 240) * 262144 + (b1 - 128) * 4096
                           + (b2 - 128) * 64 + (b3 - 128))%N
                       <$> utf8_decode_go 3 rest
                else None
            | _ => None
            end
          else None
      end
  end.

Definition utf8_decode (b : bytes) : option pystr :=
  utf8_decode_go 0 (map Byte.to_N b).

(** [str.lower] on ASCII text.  Outside ASCII the code point is left
    alone; the lower-casing of the full Unicode table is a parameter of the
    gateway section, and this function instantiates it when ASCII text is
    evaluated. *)
Definition ascii_lower_char (c : codepoint) : codepoint :=
  if in_range 65 90 c then (c + 32)%N else c.
Definition ascii_lower (s : pystr) : pystr := map ascii_lower_char s.

(** [s.startswith(p)]. *)
Fixpoint startswith (p s : pystr) : bool :=
  match p, s with
  | [], _ => true
  | a :: p', b :: s' => (a =? b)%N && startswith p' s'
  | _ :: _, [] => false
  end.

(** [s.replace(old, new)] for a non-empty [old]: occurrences are found
    left to right and do not overlap; [skip] counts the characters of a
    replaced occurrence that are still to be passed over. *)
Fixpoint str_replace_go (old new : pystr) (skip : nat) (s : pystr) : pystr :=
  match s with
  | [] => []
  | c :: s' =>
      match skip with
      | S k => str_replace_go old new k s'
      | O =>
          if startswith old s
          then new ++ str_replace_go old new (length old - 1) s'
          else c :: str_replace_go old new 0 s'
      end
  end.

Definition str_replace (s old new : pystr) : pystr := str_replace_go old new 0 s.

(** The character class [[a-f0-9]]. *)
Definition is_lower_hex (c : codepoint) : bool :=
  in_range 48 57 c || in_range 97 102 c.

(** [re.match(r'^[a-f0-9]+$', s)] as a truth value.  Without re.MULTILINE,
    [^] matches at the start only, and [$] matches at the end of the string
    and also just before a newline that is the last character. *)
Fixpoint re_hex_rest (s : pystr) : bool :=
  match s with
  | [] => true
  | [c] => is_lower_hex c || (c =? 10)%N
  | c :: s' => is_lower_hex c && re_hex_rest s'
  end.

Definition re_match_hex (s : pystr) : bool :=
  match s with
  | [] => false
  | c :: s' => is_lower_hex c && re_hex_rest s'
  end.

(** [bytes.fromhex(s)]; [None] stands for ValueError.  ASCII white space is
    skipped between two-digit groups, both digit cases are accepted. *)
Definition is_space (c : codepoint) : bool :=
  in_range 9 13 c || (c =? 32)%N.

Definition hex_value (c : codepoint) : option N :=
  if in_range 48 57 c then Some (c - 48)%N
  else if in_range 97 102 c then Some (c - 87)%N
  else if in_range 65 70 c then Some (c - 55)%N
  else None.

Definition byte_of_N (n : N) : byte :=
  match Byte.of_N n with Some b => b | None => x00 end.

Fixpoint fromhex (s : pystr) : option bytes :=
  match s with
  | [] => Some []
  | c :: s' =>
      if is_space c then fromhex s'
      else
        match hex_value c, s' with
        | Some top, d :: s'' =>
            match hex_value d with
            | Some bot => cons (byte_of_N (16 * top + bot)) <$> fromhex s''
            | None => None
            end
        | _, _ => None
        end
  end.

(** [struct.pack('>L', n)]: four octets, most significant first; [None]
    stands for struct.error, raised when [n] does not fit 32 bits. *)
Definition struct_pack_L (n : Z) : option bytes :=
  if ((0 <=? n) && (n <? 2 ^ 32))%Z
  then Some (map (fun k => byte_of_N (Z.to_N (Z.land (Z.shiftr n k) 255)))
                 [24; 16; 8; 0]%Z)
  else None.

(** [f'{b:02x}']. *)
Definition hex_digit (n : N) : codepoint :=
  if (n <? 10)%N then (48 + n)%N else (87 + n)%N.
Definition format_02x (b : byte) : pystr :=
  let n := Byte.to_N b in [hex_digit (n / 16); hex_digit (n mod 16)]%N.

End Py.

Import Py.

(** ** Data model *)

(** Per-inverter configuration.  The serial is the integer the YAML file
    holds (the source converts it with [str] wherever a string is needed);
    [mqtt_topic] is [None] when the inverter has no topic override. *)
Record InverterConfig := {
  serial : Z;
  disabled : bool;
  mqtt_topic : option pystr;
  send_raw_enabled : bool
}.

(** The [ahoy] section of the configuration file.  [mqtt] is [None] when
    the file has no [mqtt] section, else the [disabled] flag of that section
    ([False] when the section does not set it); host, port, user and
    password only reach the bus client. *)
Record AhoyConfig := {
  interval : Q;
  mqtt : option bool;
  dtu_serial : Z;
  inverters : list InverterConfig
}.

(** The bus is marked disabled in the configuration. *)
Definition mqtt_disabled (cfg : AhoyConfig) : bool := default false (mqtt cfg).

(** Decoded telemetry, the dictionary [StatusResponse.__dict__()] returns. *)
Record PhaseRecord := {
  phase_voltage : Q;
  phase_current : Q;
  phase_power : Q
}.

Record StringRecord := {
  string_voltage : Q;
  string_current : Q;
  string_power : Q;
  energy_total : Q;
  energy_daily : Q
}.

Record StatusRecord := {
  temperature : Q;
  frequency : Q;
  phases : list PhaseRecord;
  strings : list StringRecord
}.

(** The tagged result of [ResponseDecoder.decode()]. *)
Inductive decoded :=
| StatusResponse (data : StatusRecord)
| OtherResponse.

(** What one pass of [while com.rxtx()] meets: [rxtx] answered true and
    [get_payload] returned a payload, or raised an [Exception], or a
    KeyboardInterrupt arrived while the transaction was running.  The end
    of the script is [rxtx] answering false. *)
Inductive rx_event :=
| RxPayload (p : bytes)
| RxError
| RxInterrupt.

(** Calls on the collaborators, in the order they are made. *)
Inductive event :=
| EvConnect
| EvSubscribe (topic : pystr)
| EvPublish (topic : pystr) (value : Q)
| EvTransaction (dtu_ser inverter_ser : Z) (request : bytes)
| EvSleep (seconds : Q)
| EvPowerDown.

(** The answers of the outside world.  [radio_begin] is the answer of
    [radio.begin()]; [mqtt_connect] tells whether [mqtt_client.connect]
    returns: a failure is modelled as [OSError], the class of the errors
    it raises when the broker cannot be reached (ConnectionRefusedError,
    socket.gaierror and TimeoutError are subclasses).  [rx_script n] is what the [n]-th transaction created by
    the process receives, [set_time_payload n] what
    [compose_set_time_payload()] returns once [n] transactions exist,
    [clock n] is [time.time()] after the [n]-th poll cycle and
    [sleep_interrupt n] tells whether the sleep after that cycle is cut
    short by an interrupt. *)
Record Env := {
  radio_begin : bool;
  mqtt_connect : bool;
  rx_script : nat → list rx_event;
  set_time_payload : nat → bytes;
  clock : nat → Q;
  sleep_interrupt : nat → bool
}.

(** The paho client object; the module variable [mqtt_client] holds it or
    [None]. *)
Inductive Client : Set := PahoClient.

(** Process-wide mutable state of the module, with the event log and the
    counters that index the environment. *)
Record State := {
  command_queue : gmap pystr (list bytes);
  mqtt_command_topic_subs : list (pystr * pystr);
  mqtt_client : option Client;
  events : list event;
  transactions : nat;
  cycles : nat
}.

Definition initial_state : State :=
  {| command_queue := ∅; mqtt_command_topic_subs := []; mqtt_client := None;
     events := []; transactions := 0; cycles := 0 |}.

Definition set_command_queue (q : gmap pystr (list bytes)) (st : State) : State :=
  {| command_queue := q;
     mqtt_command_topic_subs := mqtt_command_topic_subs st;
     mqtt_client := mqtt_client st; events := events st;
     transactions := transactions st; cycles := cycles st |}.

Definition set_subs (l : list (pystr * pystr)) (st : State) : State :=
  {| command_queue := command_queue st; mqtt_command_topic_subs := l;
     mqtt_client := mqtt_client st; events := events st;
     transactions := transactions st; cycles := cycles st |}.

Definition set_client (c : option Client) (st : State) : State :=
  {| command_queue := command_queue st;
     mqtt_command_topic_subs := mqtt_command_topic_subs st;
     mqtt_client := c; events := events st;
     transactions := transactions st; cycles := cycles st |}.

Definition log_event (e : event) (st : State) : State :=
  {| command_queue := command_queue st;
     mqtt_command_topic_subs := mqtt_command_topic_subs st;
     mqtt_client := mqtt_client st; events := events st ++ [e];
     transactions := transactions st; cycles := cycles st |}.

Definition count_transaction (st : State) : State :=
  {| command_queue := command_queue st;
     mqtt_command_topic_subs := mqtt_command_topic_subs st;
     mqtt_client := mqtt_client st; events := events st;
     transactions := S (transactions st); cycles := cycles st |}.

Definition count_cycle (st : State) : State :=
  {| command_queue := command_queue st;
     mqtt_command_topic_subs := mqtt_command_topic_subs st;
     mqtt_client := mqtt_client st; events := events st;
     transactions := transactions st; cycles := S (cycles st) |}.

(** ** A state and exception monad

    A computation ends with a value, or with a raised exception, each
    together with the state reached; [OutOfFuel] marks a loop that was
    still running when its fuel ran out. *)
Inductive result (A : Type) :=
| Ret (a : A) (st : State)
| Exc (e : exn) (st : State)
| OutOfFuel.
Arguments Ret {A} a st.
Arguments Exc {A} e st.
Arguments OutOfFuel {A}.

Definition M (A : Type) : Type := State → result A.

#[export] Instance M_ret : MRet M := λ A a st, Ret a st.
#[export] Instance M_bind : MBind M := λ A B f m st,
  match m st with
  | Ret a st' => f a st'
  | Exc e st' => Exc e st'
  | OutOfFuel => OutOfFuel
  end.

Definition raise {A} (e : exn) : M A := λ st, Exc e st.
Definition get_state : M State := λ st, Ret st st.
Definition modify (f : State → State) : M unit := λ st, Ret () (f st).

(** [try: body except e: handler]. *)
Definition try_except {A} (body : M A) (e : exn) (handler : M A) : M A := λ st,
  match body st with
  | Exc e' st' => if decide (e' = e) then handler st' else Exc e' st'
  | r => r
  end.

(** [while cond: body] over the loop's local variables. *)
Fixpoint while_loop {L} (fuel : nat) (cond : L → bool) (body : L → M L) (l : L) : M L :=
  if cond l then
    match fuel with
    | O => λ _, OutOfFuel
    | S fuel' => l' ← body l; while_loop fuel' cond body l'
    end
  else mret l.

(** [for x in xs: body] with a loop counter kept by hand, as the source
    does for [phase_id] and [string_id]. *)
Fixpoint for_each {A} (xs : list A) (body : A → M unit) : M unit :=
  match xs with
  | [] => mret ()
  | x :: xs' => body x;; for_each xs' body
  end.

Definition final_state {A} (r : result A) (st0 : State) : State :=
  match r with
  | Ret _ st | Exc _ st => st
  | OutOfFuel => st0
  end.

(** Python truth value of a [str] or [bytes] object. *)
Definition truthy {A} (s : list A) : bool :=
  match s with [] => false | _ :: _ => true end.

(** An inbound bus message. *)
Record Message := {
  topic : pystr;
  payload : bytes
}.

(** Local variables of the retry loop of [poll_inverter]; [com_request] is
    the request of the transaction [com] of the current attempt. *)
Record retry_locals := {
  payload_ttl : Z;
  response : option bytes;
  com_request : option bytes
}.

(** ** The gateway *)

Section Gateway.

(** Collaborator functions of the protocol library, and Python's Unicode
    lower-casing. *)
Variable frame_payload : bytes → bytes.
Variable compose_esb_packet : bytes → Z → Z → bytes.
Variable decode_response : bytes → option bytes → Z → decoded.
Variable str_lower : pystr → pystr.

(** *** Status publisher *)

Definition publish (broker : Client) (topic : pystr) (value : Q) : M unit :=
  modify (log_event (EvPublish topic value)).

Fixpoint publish_phases (broker : Client) (topic : pystr) (phase_id : nat)
    (phases : list PhaseRecord) : M unit :=
  match phases with
  | [] => mret ()
  | phase :: rest =>
      publish broker (topic ++ u "/emeter/" ++ str_of_nat phase_id ++ u "/power")
        (phase_power phase);;
      publish broker (topic ++ u "/emeter/" ++ str_of_nat phase_id ++ u "/voltage")
        (phase_voltage phase);;
      publish broker (topic ++ u "/emeter/" ++ str_of_nat phase_id ++ u "/current")
        (phase_current phase);;
      publish_phases broker topic (S phase_id) rest
  end.

Fixpoint publish_strings (broker : Client) (topic : pystr) (string_id : nat)
    (strings : list StringRecord) : M unit :=
  match strings with
  | [] => mret ()
  | string :: rest =>
      publish broker (topic ++ u "/emeter-dc/" ++ str_of_nat string_id ++ u "/total")
        (energy_total string / 1000)%Q;;
      publish broker (topic ++ u "/emeter-dc/" ++ str_of_nat string_id ++ u "/power")
        (string_power string);;
      publish broker (topic ++ u "/emeter-dc/" ++ str_of_nat string_id ++ u "/voltage")
        (string_voltage string);;
      publish broker (topic ++ u "/emeter-dc/" ++ str_of_nat string_id ++ u "/current")
        (string_current string);;
      publish_strings broker topic (S string_id) rest
  end.

(** The topic root: the override when it is given and not empty, else
    [hoymiles/{inverter_ser}]. *)
Definition status_topic (inverter_ser : Z) (topic : option pystr) : pystr :=
  match topic with
  | Some t => if truthy t then t else u "hoymiles/" ++ str_of_int inverter_ser
  | None => u "hoymiles/" ++ str_of_int inverter_ser
  end.

Definition mqtt_send_status (broker : Client) (inverter_ser : Z)
    (data : StatusRecord) (topic : option pystr) : M unit :=
  let topic := status_topic inverter_ser topic in
  publish_phases broker topic 0 (phases data);;
  publish_strings broker topic 0 (strings data);;
  publish broker (topic ++ u "/frequency") (frequency data);;
  publish broker (topic ++ u "/temperature") (temperature data).

(** *** Poll orchestrator *)

(** [while com.rxtx(): try: response = com.get_payload(); payload_ttl = 0
    except Exception: ...] over what the transaction receives.  A
    KeyboardInterrupt is not an [Exception] and leaves the loop. *)
Fixpoint rx_loop (script : list rx_event) (l : retry_locals) : M retry_locals :=
  match script with
  | [] => mret l
  | RxPayload p :: rest =>
      rx_loop rest {| payload_ttl := 0; response := Some p;
                      com_request := com_request l |}
  | RxError :: rest => rx_loop rest l
  | RxInterrupt :: _ => raise KeyboardInterrupt
  end.

(** One pass of [while payload_ttl > 0]. *)
Definition retry_body (env : Env) (dtu_ser inverter_ser : Z) (payload : bytes)
    (l : retry_locals) : M retry_locals :=
  st ← get_state;
  let n := transactions st in
  modify (log_event (EvTransaction dtu_ser inverter_ser payload));;
  modify count_transaction;;
  rx_loop (rx_script env n)
    {| payload_ttl := payload_ttl l - 1; response := None;
       com_request := Some (compose_esb_packet payload dtu_ser inverter_ser) |}.

(** [command_queue[key]], raising KeyError when the key is missing. *)
Definition queue_of (key : pystr) : M (list bytes) := λ st,
  match command_queue st !! key with
  | Some q => Ret q st
  | None => Exc KeyError st
  end.

Definition set_queue (key : pystr) (q : list bytes) : M unit :=
  modify (λ st, set_command_queue (<[key := q]> (command_queue st)) st).

(** The payload of this poll: the head of the inverter's queue, removed
    from it, or a set-time request when the queue is empty. *)
Definition next_payload (env : Env) (inverter_ser : Z) : M bytes :=
  q ← queue_of (str_of_int inverter_ser);
  match q with
  | p :: rest => set_queue (str_of_int inverter_ser) rest;; mret p
  | [] => st ← get_state; mret (set_time_payload env (transactions st))
  end.

Definition poll_inverter (fuel : nat) (env : Env) (cfg : AhoyConfig)
    (inverter : InverterConfig) : M unit :=
  let inverter_ser := serial inverter in
  let dtu_ser := dtu_serial cfg in
  payload ← next_payload env inverter_ser;
  l ← while_loop fuel (λ l, 0 <? payload_ttl l)%Z
        (retry_body env dtu_ser inverter_ser payload)
        {| payload_ttl := 4; response := None; com_request := None |};
  match response l with
  | Some response =>
      if truthy response then
        match decode_response response (com_request l) inverter_ser with
        | StatusResponse data =>
            st ← get_state;
            match mqtt_client st with
            | Some client =>
                mqtt_send_status client inverter_ser data (mqtt_topic inverter)
            | None => mret ()
            end
        | OtherResponse => mret ()
        end
      else mret ()
  | None => mret ()
  end.

Definition main_loop (fuel : nat) (env : Env) (cfg : AhoyConfig) : M unit :=
  let inverters := List.filter (λ inverter, negb (disabled inverter)) (inverters cfg) in
  for_each inverters (λ inverter, poll_inverter fuel env cfg inverter).

(** *** Command channel listener *)

(** [next(item[0] for item in mqtt_command_topic_subs if item[1] == t)];
    [None] stands for StopIteration. *)
Definition lookup_subscription (subs : list (pystr * pystr)) (t : pystr) : option pystr :=
  fst <$> List.find (λ item, bool_decide (item.2 = t)) subs.

(** [mqtt_on_command(client, userdata, message)], run while [time.time()]
    is [now].  The name [inverter_ser] is assigned in the body, so it is a
    local of the function: when the generator is exhausted the assignment
    does not happen, the handler of StopIteration only prints, and reading
    the unbound local in [if inverter_ser:] raises UnboundLocalError.  The
    module-level [inverter_ser] of the start-up loop is never read here. *)
Definition mqtt_on_command (now : Q) (client : Client) (message : Message) : M unit :=
  st ← get_state;
  match lookup_subscription (mqtt_command_topic_subs st) (topic message) with
  | None => raise UnboundLocalError
  | Some inverter_ser =>
      if truthy inverter_ser then
        match utf8_decode (payload message) with
        | None => raise UnicodeDecodeError
        | Some text =>
            let p_message := str_lower text in
            match struct_pack_L (py_int now) with
            | None => raise StructError
            | Some packed =>
                let expand_time := concat (map format_02x packed) in
                let p_message := str_replace p_message (u "tttttttt") expand_time in
                if (length p_message <? 2048) && (length p_message mod 2 =? 0)
                   && re_match_hex p_message
                then
                  match fromhex p_message with
                  | None => raise ValueError
                  | Some payload =>
                      match payload with
                      | [] => raise IndexError
                      | b :: rest =>
                          if Byte.eqb b x80 then
                            q ← queue_of inverter_ser;
                            set_queue inverter_ser (q ++ [frame_payload rest])
                          else mret ()
                      end
                  end
                else mret ()
            end
        end
      else mret ()
  end.

(** *** Start-up and the interrupt handler *)

Definition command_topic (inverter : InverterConfig) : pystr :=
  default (u "hoymiles/" ++ str_of_int (serial inverter)) (mqtt_topic inverter)
    ++ u "/command".

(** [mqtt_client.subscribe(t)]: an attribute access on [None] raises
    AttributeError. *)
Definition subscribe (t : pystr) : M unit :=
  st ← get_state;
  match mqtt_client st with
  | Some _ => modify (log_event (EvSubscribe t))
  | None => raise AttributeError
  end.

Definition register_inverter (inverter : InverterConfig) : M unit :=
  let inverter_ser := serial inverter in
  set_queue (str_of_int inverter_ser) [];;
  if send_raw_enabled inverter then
    let topic_item := (str_of_int inverter_ser, command_topic inverter) in
    subscribe topic_item.2;;
    modify (λ st, set_subs (mqtt_command_topic_subs st ++ [topic_item]) st)
  else mret ().

(** The bus set-up, lines 175-181.  The default of
    [ahoy_config.get('mqtt', [])] is a list: without an [mqtt] section
    [mqtt_config.get] raises AttributeError.  The client is assigned before
    [connect] is called, and [connect] has no handler. *)
Definition mqtt_setup (env : Env) (cfg : AhoyConfig) : M unit :=
  match mqtt cfg with
  | None => raise AttributeError
  | Some disabled =>
      if negb disabled then
        modify (set_client (Some PahoClient));;
        modify (log_event EvConnect);;
        if mqtt_connect env then mret () else raise OSError
      else mret ()
  end.

Definition startup (env : Env) (cfg : AhoyConfig) : M unit :=
  mqtt_setup env cfg;;
  (if negb (radio_begin env) then raise RuntimeError else mret ());;
  for_each (inverters cfg) register_inverter.

(** [time.sleep(seconds)]: a negative length raises ValueError; the sleep
    after cycle [n] is interrupted when the environment says so. *)
Definition sleep (env : Env) (seconds : Q) : M unit :=
  if Qlt_le_dec seconds 0 then raise ValueError
  else
    modify (log_event (EvSleep seconds));;
    st ← get_state;
    if sleep_interrupt env (cycles st) then raise KeyboardInterrupt else mret ().

(** The length of the sleep after a cycle, [time.time() % loop_interval]. *)
Definition sleep_length (now loop_interval : Q) : Q := py_mod now loop_interval.

(** One pass of [while True]. *)
Definition poll_cycle (fuel : nat) (env : Env) (cfg : AhoyConfig) : M unit :=
  let loop_interval := interval cfg in
  main_loop fuel env cfg;;
  st ← get_state;
  (if negb (Qeq_bool loop_interval 0)
   then sleep env (sleep_length (clock env (cycles st)) loop_interval)
   else mret ());;
  modify count_cycle.

Definition poll_forever (fuel : nat) (env : Env) (cfg : AhoyConfig) : M unit :=
  while_loop fuel (λ _, true) (λ _, poll_cycle fuel env cfg) ().

(** [try: while True: ... except KeyboardInterrupt: radio.powerDown();
    sys.exit()]. *)
Definition guarded_poll_loop (fuel : nat) (env : Env) (cfg : AhoyConfig) : M unit :=
  try_except (poll_forever fuel env cfg) KeyboardInterrupt
    (modify (log_event EvPowerDown);; raise SystemExit).

Definition main (fuel : nat) (env : Env) (cfg : AhoyConfig) : M unit :=
  startup env cfg;;
  guarded_poll_loop fuel env cfg.

End Gateway.

(** ** Vocabulary of the properties *)

(** The text the listener validates: the decoded payload, lower-cased, with
    every [tttttttt] replaced by the eight hex digits of [int(now)].  It is
    [None] when the payload is not UTF-8 or the time does not fit 32 bits. *)
Definition expanded_text (str_lower : pystr → pystr) (now : Q) (raw : bytes) : option pystr :=
  text ← utf8_decode raw;
  packed ← struct_pack_L (py_int now);
  Some (str_replace (str_lower text) (u "tttttttt") (concat (map format_02x packed))).

(** The validation of the listener passes. *)
Definition validated (p_message : pystr) : bool :=
  (length p_message <? 2048) && (length p_message mod 2 =? 0) && re_match_hex p_message.

(** Every serial of the subscription table is a non-empty string that has a
    queue; start-up establishes this and no operation breaks it. *)
Definition subscriptions_have_queues (st : State) : Prop :=
  ∀ item, item ∈ mqtt_command_topic_subs st →
    item.1 ≠ [] ∧ is_Some (command_queue st !! item.1).

(** The transactions a run has logged, as (inverter serial, payload). *)
Definition transactions_of (evs : list event) : list (Z * bytes) :=
  omap (λ e, match e with
             | EvTransaction _ inverter_ser p => Some (inverter_ser, p)
             | _ => None
             end) evs.

Definition publishes_of (evs : list event) : list (pystr * Q) :=
  omap (λ e, match e with EvPublish t v => Some (t, v) | _ => None end) evs.

(** An attempt extracts a response when a payload is received before any
    interrupt. *)
Fixpoint extracts (script : list rx_event) : bool :=
  match script with
  | [] => false
  | RxPayload _ :: _ => true
  | RxError :: rest => extracts rest
  | RxInterrupt :: _ => false
  end.

(** The state after a list of further collaborator calls, and after [n]
    further transactions. *)
Definition log_events (evs : list event) (st : State) : State :=
  {| command_queue := command_queue st;
     mqtt_command_topic_subs := mqtt_command_topic_subs st;
     mqtt_client := mqtt_client st; events := events st ++ evs;
     transactions := transactions st; cycles := cycles st |}.

Definition add_transactions (n : nat) (st : State) : State :=
  {| command_queue := command_queue st;
     mqtt_command_topic_subs := mqtt_command_topic_subs st;
     mqtt_client := mqtt_client st; events := events st;
     transactions := transactions st + n; cycles := cycles st |}.

(** The publish calls of a status record, as (topic, value) pairs. *)
Definition phase_publishes (root : pystr) (i : nat) (phase : PhaseRecord) : list (pystr * Q) :=
  [ (root ++ u "/emeter/" ++ str_of_nat i ++ u "/power", phase_power phase);
    (root ++ u "/emeter/" ++ str_of_nat i ++ u "/voltage", phase_voltage phase);
    (root ++ u "/emeter/" ++ str_of_nat i ++ u "/current", phase_current phase) ].

Definition string_publishes (root : pystr) (i : nat) (s : StringRecord) : list (pystr * Q) :=
  [ (root ++ u "/emeter-dc/" ++ str_of_nat i ++ u "/total", (energy_total s / 1000)%Q);
    (root ++ u "/emeter-dc/" ++ str_of_nat i ++ u "/power", string_power s);
    (root ++ u "/emeter-dc/" ++ str_of_nat i ++ u "/voltage", string_voltage s);
    (root ++ u "/emeter-dc/" ++ str_of_nat i ++ u "/current", string_current s) ].

Definition status_publishes (root : pystr) (data : StatusRecord) : list (pystr * Q) :=
  concat (imap (phase_publishes root) (phases data))
  ++ concat (imap (string_publishes root) (strings data))
  ++ [ (root ++ u "/frequency", frequency data);
       (root ++ u "/temperature", temperature data) ].

Definition publish_event (tv : pystr * Q) : event := EvPublish tv.1 tv.2.

(** The queues start-up has created once the inverters [invs] are
    registered. *)
Definition registered_queues (invs : list InverterConfig)
    (q : gmap pystr (list bytes)) : gmap pystr (list bytes) :=
  fold_left (λ q i, <[str_of_int (serial i) := []]> q) invs q.

(** [m] raises no exception outside [P]. *)
Definition raises_within {A} (P : exn → Prop) (m : M A) : Prop :=
  ∀ st e st', m st = Exc e st' → P e.

(** The exceptions that can leave the body of the poll loop. *)
Definition poll_loop_exn (e : exn) : Prop :=
  e = KeyError ∨ e = KeyboardInterrupt ∨ e = ValueError.

(** The inverters start-up subscribes, and the state a start-up with a bus
    client leaves. *)
Definition raw_inverters (cfg : AhoyConfig) : list InverterConfig :=
  List.filter send_raw_enabled (inverters cfg).

Definition subscription_item_of (command_topic : InverterConfig → pystr)
    (inverter : InverterConfig) : pystr * pystr :=
  (str_of_int (serial inverter), command_topic inverter).

(** [''.join(f'{b:02x}' for b in bs)], the hex text of octets. *)
Definition hexlify (bs : bytes) : pystr := concat (map format_02x bs).

(** The response a receive loop leaves: the last payload it got, else what
    was there before. *)
Fixpoint received (script : list rx_event) (r : option bytes) : option bytes :=
  match script with
  | [] => r
  | RxPayload p :: rest => received rest (Some p)
  | RxError :: rest => received rest r
  | RxInterrupt :: _ => r
  end.

(** The number of transactions an uninterrupted retry loop makes from the
    [t]-th transaction on with [ttl] attempts left, and the response it
    ends with. *)
Fixpoint retry_outcome (env : Env) (ttl t : nat) : nat * option bytes :=
  match ttl with
  | O => (0, None)
  | S k =>
      if extracts (rx_script env t) then (1, received (rx_script env t) None)
      else (S (retry_outcome env k (S t)).1, (retry_outcome env k (S t)).2)
  end.

(** What a poll publishes for the response it ended with. *)
Definition response_publishes (decode_response : bytes → option bytes → Z → decoded)
    (client : option Client) (inverter : InverterConfig)
    (response : option bytes) (request : option bytes) : list (pystr * Q) :=
  match response, client with
  | Some r, Some _ =>
      if truthy r then
        match decode_response r request (serial inverter) with
        | StatusResponse data =>
            status_publishes (status_topic (serial inverter) (mqtt_topic inverter)) data
        | OtherResponse => []
        end
      else []
  | _, _ => []
  end.

(** [m] keeps the state property [I], however it ends. *)
Definition preserves {A} (I : State → Prop) (m : M A) : Prop :=
  ∀ st, I st →
    match m st with
    | Ret _ st' | Exc _ st' => I st'
    | OutOfFuel => True
    end.

(** No bus client is set and the publish calls so far are [pubs]. *)
Definition silent (pubs : list (pystr * Q)) (st : State) : Prop :=
  mqtt_client st = None ∧ publishes_of (events st) = pubs.

(** The transactions logged for one inverter. *)
Definition transactions_for (inverter_ser : Z) (evs : list event) : list (Z * bytes) :=
  filter (λ t, t.1 = inverter_ser) (transactions_of evs).

(** The first [n] passes of [while True]: [n] consecutive poll cycles. *)
Definition poll_cycles (compose_esb_packet : bytes → Z → Z → bytes)
    (decode_response : bytes → option bytes → Z → decoded)
    (fuel : nat) (env : Env) (cfg : AhoyConfig) (n : nat) : M unit :=
  for_each (replicate n ())
    (λ _, poll_cycle compose_esb_packet decode_response fuel env cfg).

(** ** A sample installation

    Stand-ins for the protocol library, a configuration with one enabled
    and one disabled inverter, and an environment; the closed statements
    at the end of the file are evaluated on them. *)

Definition frame_stub (p : bytes) : bytes := p ++ [x00; x00].
Definition esb_stub (p : bytes) (src dst : Z) : bytes := p.

Definition sample_status : StatusRecord :=
  {| temperature := 25; frequency := 50;
     phases := [ {| phase_voltage := 230; phase_current := 1; phase_power := 230 |};
                 {| phase_voltage := 231; phase_current := 2; phase_power := 462 |};
                 {| phase_voltage := 229; phase_current := 3; phase_power := 687 |} ];
     strings := [ {| string_voltage := 30; string_current := 8; string_power := 240;
                     energy_total := 1234000; energy_daily := 500 |};
                  {| string_voltage := 31; string_current := 7; string_power := 217;
                     energy_total := 2500; energy_daily := 400 |} ] |}.

Definition decode_stub (response : bytes) (request : option bytes) (ser : Z) : decoded :=
  StatusResponse sample_status.

Definition inverter_a : InverterConfig :=
  {| serial := 114172220003; disabled := false; mqtt_topic := None;
     send_raw_enabled := true |}.

Definition inverter_b : InverterConfig :=
  {| serial := 114172220004; disabled := true; mqtt_topic := Some (u "roof");
     send_raw_enabled := true |}.

Definition sample_cfg : AhoyConfig :=
  {| interval := 10; mqtt := Some false; dtu_serial := 99978563001;
     inverters := [inverter_a; inverter_b] |}.

Definition sample_cfg_no_bus : AhoyConfig :=
  {| interval := 10; mqtt := Some true; dtu_serial := 99978563001;
     inverters := [inverter_a; inverter_b] |}.

(** The first transaction meets an extraction error, the second receives
    a payload, the third is interrupted; the clock reads 1003 s. *)
Definition sample_env : Env :=
  {| radio_begin := true; mqtt_connect := true;
     rx_script := λ n, match n with
                       | 0 => [RxError]
                       | 1 => [RxPayload [x95; x01]]
                       | 2 => [RxInterrupt]
                       | _ => []
                       end;
     set_time_payload := λ _, [x0b; x00];
     clock := λ _, 1003%Q;
     sleep_interrupt := λ _, false |}.

Definition sample_env_no_radio : Env :=
  {| radio_begin := false; mqtt_connect := true; rx_script := λ _, [];
     set_time_payload := λ _, [x0b; x00]; clock := λ _, 1003%Q;
     sleep_interrupt := λ _, false |}.

(** The state a successful start-up leaves. *)
Definition started : State :=
  final_state (startup sample_env sample_cfg initial_state) initial_state.

(** The command of the docstring, sent to each of the two inverters. *)
Definition sample_command : bytes :=
  list_byte_of_string "800b00tttttttt0000000500000000".

Definition message_a : Message :=
  {| topic := u "hoymiles/114172220003/command"; payload := sample_command |}.

Definition message_b : Message :=
  {| topic := u "roof/command"; payload := sample_command |}.

Definition sample_now : Q := 1667548800.

(** The state after both commands were delivered. *)
Definition queued : State :=
  final_state
    (mqtt_on_command frame_stub ascii_lower sample_now PahoClient message_b
       (final_state
          (mqtt_on_command frame_stub ascii_lower sample_now PahoClient message_a started)
          started))
    started.

(** A message for a topic nobody subscribed, one with a character that is
    no hex digit, and one that ends with a newline. *)
Definition message_unknown : Message :=
  {| topic := u "hoymiles/1/command"; payload := sample_command |}.

Definition message_not_hex : Message :=
  {| topic := u "hoymiles/114172220003/command";
     payload := list_byte_of_string "80g0" |}.

Definition message_newline : Message :=
  {| topic := u "hoymiles/114172220003/command";
     payload := list_byte_of_string "800" ++ [x0a] |}.

(** The expanded text of [sample_command] at [sample_now], and the octets
    it decodes to after the marker. *)
Definition sample_text : pystr := u "800b006364c6800000000500000000".
Definition sample_rest : bytes :=
  [x0b; x00; x63; x64; xc6; x80; x00; x00; x00; x05; x00; x00; x00; x00].

(** Further environments: one in which no transaction is interrupted, one
    in which the radio hears nothing it can use, one in which the first
    transaction already receives a payload; a configuration with a
    negative interval and no inverter; the time after which the clock no
    longer fits 32 bits. *)
Definition sample_env_quiet : Env :=
  {| radio_begin := true; mqtt_connect := true;
     rx_script := λ n, match n with
                       | 0 => [RxError]
                       | 1 => [RxPayload [x95; x01]]
                       | _ => []
                       end;
     set_time_payload := λ _, [x0b; x00]; clock := λ _, 1003%Q;
     sleep_interrupt := λ _, false |}.

Definition sample_env_deaf : Env :=
  {| radio_begin := true; mqtt_connect := true;
     rx_script := λ _, [RxError; RxError];
     set_time_payload := λ _, [x0b; x00]; clock := λ _, 1003%Q;
     sleep_interrupt := λ _, false |}.

Definition sample_env_prompt : Env :=
  {| radio_begin := true; mqtt_connect := true;
     rx_script := λ _, [RxPayload [x01]; RxPayload [x95; x01]];
     set_time_payload := λ _, [x0b; x00]; clock := λ _, 1003%Q;
     sleep_interrupt := λ _, false |}.

Definition sample_cfg_negative : AhoyConfig :=
  {| interval := -10; mqtt := Some true; dtu_serial := 99978563001;
     inverters := [] |}.

Definition sample_late : Q := 4294967296.

(** A second command for inverter A, and the state in which it waits
    behind the command of the docstring. *)
Definition message_a_second : Message :=
  {| topic := u "hoymiles/114172220003/command";
     payload := list_byte_of_string "8011" |}.

Definition queued_twice : State :=
  final_state
    (mqtt_on_command frame_stub ascii_lower sample_now PahoClient message_a_second queued)
    queued.

(** An installation that only monitors: the bus is disabled and its one
    inverter takes no raw commands. *)
Definition inverter_c : InverterConfig :=
  {| serial := 114172220005; disabled := false; mqtt_topic := None;
     send_raw_enabled := false |}.

Definition sample_cfg_monitor : AhoyConfig :=
  {| interval := 10; mqtt := Some true; dtu_serial := 99978563001;
     inverters := [inverter_c] |}.

Definition started_monitor : State :=
  final_state (startup sample_env sample_cfg_monitor initial_state) initial_state.

Definition sample_template : pystr := u "800b00tttttttt0000000500000000".

Definition sample_packed : bytes := [x63; x64; xc6; x80].

(** ** Properties *)

Section GatewayProperties.

Variable frame_payload : bytes → bytes.
Variable compose_esb_packet : bytes → Z → Z → bytes.
Variable decode_response : bytes → option bytes → Z → decoded.
Variable str_lower : pystr → pystr.

Ltac run_monad :=
  unfold mbind, M_bind, mret, M_ret, raise, get_state, modify in *; simpl in *.

(** *** Built-ins *)

Lemma list_pair_ind {A} (P : list A → Prop) :
  P [] → (∀ a, P [a]) → (∀ a b l, P l → P (a :: b :: l)) → ∀ l, P l.
Proof.
  intros H0 H1 H2 l.
  assert (H : P l ∧ ∀ a, P (a :: l)); [|tauto].
  induction l as [|b l [IH1 IH2]]; split; auto.
Qed.

Lemma lower_hex_digit c :
  is_lower_hex c = true → is_space c = false ∧ is_Some (hex_value c).
Proof.
  unfold is_lower_hex, is_space, hex_value, in_range. intros H.
  repeat match goal with
         | |- context [(?a <=? ?b)%N] => destruct (N.leb_spec a b)
         | |- context [(?a =? ?b)%N] => destruct (N.eqb_spec a b)
         | H : context [(?a <=? ?b)%N] |- _ => destruct (N.leb_spec a b)
         end; simpl in *; try discriminate; try lia; eauto.
Qed.

Lemma fromhex_cons2 c d s top bot :
  is_space c = false → hex_value c = Some top → hex_value d = Some bot →
  fromhex (c :: d :: s) = cons (byte_of_N (16 * top + bot)) <$> fromhex s.
Proof. intros Hs Hc Hd. simpl. by rewrite Hs, Hc, Hd. Qed.

(** An even number of hex digits decodes to half as many octets. *)
Lemma fromhex_even_hex (p : pystr) :
  Forall (λ c, is_lower_hex c = true) p → Nat.Even (length p) →
  ∃ bs, fromhex p = Some bs ∧ length p = 2 * length bs.
Proof.
  induction p as [| a | a b p IH] using list_pair_ind; intros Hhex Hlen.
  - exists []. done.
  - destruct Hlen as [k Hk]. simpl in Hk. lia.
  - inversion Hhex as [|? ? Ha Hhex']; subst.
    inversion Hhex' as [|? ? Hb Hhex'']; subst.
    destruct (lower_hex_digit a Ha) as [Hsa [top Htop]].
    destruct (lower_hex_digit b Hb) as [_ [bot Hbot]].
    destruct IH as [bs [Hbs Hl]]; [done| |].
    { destruct Hlen as [k Hk]. exists (k - 1). simpl in Hk. lia. }
    exists (byte_of_N (16 * top + bot) :: bs).
    rewrite (fromhex_cons2 _ _ _ _ _ Hsa Htop Hbot), Hbs. simpl. split; [done | lia].
Qed.

(** An odd number of hex digits followed by a newline does not decode. *)
Lemma fromhex_odd_hex_newline (h : pystr) :
  Forall (λ c, is_lower_hex c = true) h → Nat.Odd (length h) →
  fromhex (h ++ [10%N]) = None.
Proof.
  induction h as [| a | a b h IH] using list_pair_ind; intros Hhex Hlen.
  - destruct Hlen as [k Hk]. simpl in Hk. lia.
  - inversion Hhex as [|? ? Ha _]; subst.
    destruct (lower_hex_digit a Ha) as [Hsa [top Htop]].
    simpl. by rewrite Hsa, Htop.
  - inversion Hhex as [|? ? Ha Hhex']; subst.
    inversion Hhex' as [|? ? Hb Hhex'']; subst.
    destruct (lower_hex_digit a Ha) as [Hsa [top Htop]].
    destruct (lower_hex_digit b Hb) as [_ [bot Hbot]].
    change ((a :: b :: h) ++ [10%N]) with (a :: b :: (h ++ [10%N])).
    rewrite (fromhex_cons2 _ _ _ _ _ Hsa Htop Hbot), IH; [done..|].
    destruct Hlen as [k Hk]. exists (k - 1). simpl in Hk. lia.
Qed.

(** What the pattern accepts: hex digits, or hex digits and one final
    newline. *)
Lemma re_hex_rest_shape (s : pystr) :
  re_hex_rest s = true →
  Forall (λ c, is_lower_hex c = true) s
  ∨ ∃ h, s = h ++ [10%N] ∧ Forall (λ c, is_lower_hex c = true) h.
Proof.
  induction s as [|c s IH]; intros H; [by left|].
  destruct s as [|d s'].
  - simpl in H. apply orb_true_iff in H as [H|H].
    + left. by constructor.
    + right. exists []. apply N.eqb_eq in H. by subst.
  - change (re_hex_rest (c :: d :: s')) with (is_lower_hex c && re_hex_rest (d :: s')) in H.
    apply andb_true_iff in H as [Hc H]. destruct (IH H) as [Hall | [h [-> Hh]]].
    + left. by constructor.
    + right. exists (c :: h). split; [done | by constructor].
Qed.

Lemma re_match_hex_shape (s : pystr) :
  re_match_hex s = true →
  s ≠ [] ∧ (Forall (λ c, is_lower_hex c = true) s
            ∨ ∃ h, s = h ++ [10%N] ∧ h ≠ [] ∧ Forall (λ c, is_lower_hex c = true) h).
Proof.
  destruct s as [|c s]; [discriminate|]. simpl. intros H.
  apply andb_true_iff in H as [Hc H]. split; [done|].
  destruct (re_hex_rest_shape s H) as [Hall | [h [-> Hh]]].
  - left. by constructor.
  - right. exists (c :: h). split; [done|]. split; [done | by constructor].
Qed.

Lemma validated_spec (p : pystr) :
  validated p = true ↔ length p < 2048 ∧ Nat.Even (length p) ∧ re_match_hex p = true.
Proof.
  unfold validated. rewrite !andb_true_iff, Nat.ltb_lt, Nat.eqb_eq.
  assert (length p mod 2 = 0 ↔ Nat.Even (length p)); [|tauto].
  rewrite Nat.Div0.mod_divides. unfold Nat.Even. done.
Qed.

(** *** Command channel listener *)

#[local] Arguments struct_pack_L : simpl never.
#[local] Arguments str_replace : simpl never.
#[local] Arguments utf8_decode : simpl never.
#[local] Arguments fromhex : simpl never.
#[local] Arguments re_match_hex : simpl never.
#[local] Opaque u.
#[local] Arguments Nat.modulo : simpl never.
#[local] Arguments Nat.ltb : simpl never.

Lemma lookup_subscription_None subs t :
  lookup_subscription subs t = None ↔ ∀ item, item ∈ subs → item.2 ≠ t.
Proof.
  unfold lookup_subscription. induction subs as [|item subs IH]; simpl.
  - split; [|done]. intros _ item H. by apply elem_of_nil in H.
  - case_bool_decide as Heq; simpl.
    + split; [done|]. intros H. exfalso. apply (H item); [left | done].
    + rewrite IH. split.
      * intros H item' [->|Hin]%elem_of_cons; auto.
      * intros H item' Hin. apply H. by right.
Qed.

Lemma lookup_subscription_Some subs t ser :
  lookup_subscription subs t = Some ser →
  ∃ before after, subs = before ++ (ser, t) :: after
                  ∧ ∀ item, item ∈ before → item.2 ≠ t.
Proof.
  unfold lookup_subscription. induction subs as [|item subs IH]; simpl; [done|].
  case_bool_decide as Heq; simpl.
  - intros [= <-]. exists [], subs. destruct item as [s t']. simpl in *. subst.
    split; [done|]. intros item H. by apply elem_of_nil in H.
  - intros H. destruct (IH H) as (before & after & -> & Hb).
    exists (item :: before), after. split; [done|].
    intros item' [->|Hin]%elem_of_cons; auto.
Qed.

Lemma lookup_subscription_elem_of subs t ser :
  lookup_subscription subs t = Some ser → (ser, t) ∈ subs.
Proof.
  intros (before & after & -> & _)%lookup_subscription_Some.
  apply elem_of_app. right. left.
Qed.

(** The listener only ever touches the command queues, and it returns. *)
Lemma mqtt_on_command_frame now client message st :
  ∃ q, final_state (mqtt_on_command frame_payload str_lower now client message st) st
       = set_command_queue q st
  ∧ mqtt_on_command frame_payload str_lower now client message st ≠ OutOfFuel.
Proof.
  unfold mqtt_on_command, queue_of, set_queue. run_monad.
  assert (Hid : st = set_command_queue (command_queue st) st) by by destruct st.
  destruct (lookup_subscription _ _) as [ser|]; simpl; [|by eauto].
  destruct (truthy ser); simpl; [|by eauto].
  destruct (utf8_decode _) as [text|]; simpl; [|by eauto].
  destruct (struct_pack_L _) as [packed|]; simpl; [|by eauto].
  destruct (_ && _); simpl; [|by eauto].
  destruct (fromhex _) as [[|b rest]|]; simpl; [by eauto | | by eauto].
  destruct (Byte.eqb b x80); simpl; [|by eauto].
  destruct (_ !! _) as [q|]; simpl; [|by eauto].
  eexists. split; [reflexivity | done].
Qed.

(** C1: a message whose topic is not in the subscription table leaves
    every command queue as it was; the listener stops with
    UnboundLocalError before it looks at the payload, and nothing else of
    the state changes either. *)
Theorem mqtt_on_command_unknown_topic now client message st :
  (∀ item, item ∈ mqtt_command_topic_subs st → item.2 ≠ topic message) →
  mqtt_on_command frame_payload str_lower now client message st
    = Exc UnboundLocalError st
  ∧ command_queue
      (final_state (mqtt_on_command frame_payload str_lower now client message st) st)
    = command_queue st.
Proof.
  intros H%lookup_subscription_None.
  assert (Hrun : mqtt_on_command frame_payload str_lower now client message st
                 = Exc UnboundLocalError st).
  { unfold mqtt_on_command. run_monad. by rewrite H. }
  by rewrite Hrun.
Qed.

(** The listener's run once the topic is resolved and the text expanded. *)
Lemma mqtt_on_command_expanded now client message st inverter_ser p :
  lookup_subscription (mqtt_command_topic_subs st) (topic message) = Some inverter_ser →
  inverter_ser ≠ [] →
  expanded_text str_lower now (payload message) = Some p →
  mqtt_on_command frame_payload str_lower now client message st =
    if validated p then
      match fromhex p with
      | None => Exc ValueError st
      | Some [] => Exc IndexError st
      | Some (b :: rest) =>
          if Byte.eqb b x80 then
            match command_queue st !! inverter_ser with
            | Some q =>
                Ret () (set_command_queue
                          (<[inverter_ser := q ++ [frame_payload rest]]> (command_queue st)) st)
            | None => Exc KeyError st
            end
          else Ret () st
      end
    else Ret () st.
Proof.
  intros Hsub Hne Hexp. unfold expanded_text in Hexp.
  destruct (utf8_decode (payload message)) as [text|] eqn:Hdec; [|done].
  destruct (struct_pack_L (py_int now)) as [packed|] eqn:Hpack; [|done].
  simpl in Hexp. injection Hexp as <-.
  unfold mqtt_on_command, queue_of, set_queue, validated. run_monad.
  rewrite Hsub. destruct inverter_ser as [|c ser]; [done|]. simpl.
  rewrite Hdec, Hpack.
  destruct (_ && _); simpl; [|done].
  destruct (fromhex _) as [[|b rest]|]; simpl; [done | | done].
  destruct (Byte.eqb b x80); simpl; [|done].
  by destruct (_ !! _).
Qed.

Lemma re_match_hex_all (p : pystr) :
  p ≠ [] → Forall (λ c, is_lower_hex c = true) p → re_match_hex p = true.
Proof.
  destruct p as [|c p]; [done|]. intros _ H.
  inversion H as [|? ? Hc Hp]; subst. unfold re_match_hex. rewrite Hc. simpl. clear H Hc.
  induction p as [|d p IH]; [done|].
  inversion Hp as [|? ? Hd Hp']; subst.
  destruct p as [|e p]; simpl; [by rewrite Hd|].
  rewrite Hd. simpl. by apply IH.
Qed.

(** Text that passes the validation either fails to decode, or decodes to
    at least one octet: [payload[0]] is never out of range. *)
Lemma validated_fromhex_nonempty (p : pystr) :
  validated p = true → fromhex p ≠ Some [].
Proof.
  intros (_ & Heven & Hre)%validated_spec.
  destruct (re_match_hex_shape p Hre) as [Hne [Hall | (h & -> & Hh & Hall)]].
  - destruct (fromhex_even_hex p Hall Heven) as (bs & -> & Hlen).
    destruct p; [done|]. destruct bs; [simpl in Hlen; lia | done].
  - rewrite fromhex_odd_hex_newline; [done..|].
    destruct Heven as [k Hk]. rewrite length_app in Hk. simpl in Hk.
    exists (k - 1). lia.
Qed.

(** C4: a well-formed command on a subscribed topic is framed without its
    marker octet and appended to the queue of the inverter the topic
    resolves to; the listener returns normally and no other queue, and
    nothing else of the state, changes. *)
Theorem mqtt_on_command_enqueues now client message st inverter_ser p rest :
  subscriptions_have_queues st →
  lookup_subscription (mqtt_command_topic_subs st) (topic message) = Some inverter_ser →
  expanded_text str_lower now (payload message) = Some p →
  length p < 2048 →
  Nat.Even (length p) →
  Forall (λ c, is_lower_hex c = true) p →
  fromhex p = Some (x80 :: rest) →
  ∃ q, command_queue st !! inverter_ser = Some q
  ∧ mqtt_on_command frame_payload str_lower now client message st
    = Ret () (set_command_queue
                (<[inverter_ser := q ++ [frame_payload rest]]> (command_queue st)) st).
Proof.
  intros Hinv Hsub Hexp Hlen Heven Hall Hdec.
  destruct (Hinv _ (lookup_subscription_elem_of _ _ _ Hsub)) as [Hne [q Hq]].
  simpl in Hne, Hq. exists q. split; [done|].
  rewrite (mqtt_on_command_expanded _ _ _ _ _ _ Hsub Hne Hexp).
  assert (Hval : validated p = true).
  { apply validated_spec. repeat split; [done..|].
    apply re_match_hex_all; [|done]. by intros ->. }
  by rewrite Hval, Hdec, Hq.
Qed.

(** C7: text of odd length, of 2048 characters or more, with a character
    outside [[a-f0-9]], or whose first octet is not 0x80, changes nothing:
    the state after the listener, queues and event log included, is the
    state before it. *)
Theorem mqtt_on_command_rejects now client message st p :
  expanded_text str_lower now (payload message) = Some p →
  Nat.Odd (length p) ∨ 2048 ≤ length p
  ∨ Exists (λ c, is_lower_hex c = false) p
  ∨ (∃ b rest, fromhex p = Some (b :: rest) ∧ b ≠ x80) →
  final_state (mqtt_on_command frame_payload str_lower now client message st) st = st.
Proof.
  intros Hexp Hbad.
  destruct (lookup_subscription (mqtt_command_topic_subs st) (topic message))
    as [[|c ser]|] eqn:Hsub.
  - unfold mqtt_on_command. run_monad. by rewrite Hsub.
  - rewrite (mqtt_on_command_expanded _ _ _ _ _ _ Hsub ltac:(done) Hexp).
    destruct (validated p) eqn:Hval; [|done].
    apply validated_spec in Hval as Hval'. destruct Hval' as (Hlen & Heven & Hre).
    destruct Hbad as [Hodd | [Hlong | [Hchar | (b & rest & Hdec & Hb)]]].
    + exfalso. destruct Heven as [k Hk], Hodd as [k' Hk']. lia.
    + lia.
    + destruct (re_match_hex_shape p Hre) as [_ [Hall | (h & -> & Hh & Hall)]].
      * exfalso. apply Exists_exists in Hchar as (x & Hin & Hx).
        rewrite Forall_forall in Hall. specialize (Hall x Hin). congruence.
      * rewrite fromhex_odd_hex_newline; [done..|].
        destruct Heven as [k Hk]. rewrite length_app in Hk. simpl in Hk.
        exists (k - 1). lia.
    + rewrite Hdec. destruct (Byte.eqb b x80) eqn:Heq; [|done].
      apply Byte.byte_dec_bl in Heq. done.
  - unfold mqtt_on_command. run_monad. by rewrite Hsub.
Qed.

(** Whatever passes the validation, [payload[0]] is in range: the listener
    never raises IndexError. *)
Lemma mqtt_on_command_no_index_error now client message st st' :
  mqtt_on_command frame_payload str_lower now client message st ≠ Exc IndexError st'.
Proof.
  unfold mqtt_on_command, queue_of, set_queue. run_monad.
  destruct (lookup_subscription _ _) as [ser|]; simpl; [|done].
  destruct (truthy ser); simpl; [|done].
  destruct (utf8_decode _) as [text|]; simpl; [|done].
  destruct (struct_pack_L _) as [packed|]; simpl; [|done].
  destruct (_ && _) eqn:Hval; simpl; [|done].
  destruct (fromhex _) as [[|b rest]|] eqn:Hdec; simpl; [|..|done].
  - by apply validated_fromhex_nonempty in Hval.
  - destruct (Byte.eqb b x80); simpl; [|done]. by destruct (_ !! _).
Qed.

(** *** State bookkeeping *)

Lemma log_events_nil st : log_events [] st = st.
Proof. destruct st. unfold log_events. simpl. by rewrite app_nil_r. Qed.

Lemma log_event_log_events e evs st :
  log_event e (log_events evs st) = log_events (evs ++ [e]) st.
Proof. unfold log_event, log_events. simpl. by rewrite app_assoc. Qed.

Lemma log_events_log_events evs1 evs2 st :
  log_events evs2 (log_events evs1 st) = log_events (evs1 ++ evs2) st.
Proof. unfold log_events. simpl. by rewrite app_assoc. Qed.

Lemma log_event_one e st : log_event e st = log_events [e] st.
Proof. done. Qed.

(** *** Status publisher *)

Lemma publish_phases_run broker root k phases st :
  publish_phases broker root k phases st
  = Ret () (log_events (publish_event <$>
                          concat (imap (λ i, phase_publishes root (k + i)) phases)) st).
Proof.
  revert k st. induction phases as [|phase rest IH]; intros k st.
  - simpl. by rewrite log_events_nil.
  - simpl. unfold publish. run_monad. rewrite IH.
    rewrite !log_event_one, !log_events_log_events. simpl.
    rewrite Nat.add_0_r. do 7 f_equal.
    apply imap_ext. intros i x _. simpl. by rewrite Nat.add_succ_r.
Qed.

Lemma publish_strings_run broker root k strings st :
  publish_strings broker root k strings st
  = Ret () (log_events (publish_event <$>
                          concat (imap (λ i, string_publishes root (k + i)) strings)) st).
Proof.
  revert k st. induction strings as [|s rest IH]; intros k st.
  - simpl. by rewrite log_events_nil.
  - simpl. unfold publish. run_monad. rewrite IH.
    rewrite !log_event_one, !log_events_log_events. simpl.
    rewrite Nat.add_0_r. do 8 f_equal.
    apply imap_ext. intros i x _. simpl. by rewrite Nat.add_succ_r.
Qed.

(** The publisher returns, and all it does is append its publish calls to
    the event log. *)
Lemma mqtt_send_status_run broker inverter_ser data topic st :
  mqtt_send_status broker inverter_ser data topic st
  = Ret () (log_events
              (publish_event <$> status_publishes (status_topic inverter_ser topic) data) st).
Proof.
  unfold mqtt_send_status, status_publishes, publish. run_monad.
  rewrite publish_phases_run, publish_strings_run. simpl.
  rewrite !log_event_one, !log_events_log_events.
  by rewrite !fmap_app.
Qed.

Lemma u_inj (s1 s2 : string) : u s1 = u s2 → s1 = s2.
Proof.
  Transparent u. unfold u. Opaque u.
  intros H.
  rewrite <- (string_of_list_ascii_of_string s1), <- (string_of_list_ascii_of_string s2).
  f_equal. revert H. generalize (list_ascii_of_string s1) (list_ascii_of_string s2).
  induction l as [|a l IH]; intros [|b l']; simpl; try done.
  intros [= Hab Hl]. f_equal; [|by apply IH].
  by rewrite <- (ascii_N_embedding a), <- (ascii_N_embedding b), Hab.
Qed.

Lemma str_of_nat_inj (i j : nat) : str_of_nat i = str_of_nat j → i = j.
Proof. unfold str_of_nat. intros H%u_inj. by apply (inj pretty) in H. Qed.

Lemma concat_imap_length {A B} (f : nat → A → list B) (c : nat) (l : list A) :
  (∀ i x, length (f i x) = c) → length (concat (imap f l)) = c * length l.
Proof.
  revert f. induction l as [|x l IH]; intros f Hf; simpl; [lia|].
  rewrite length_app, Hf, IH; [lia|]. intros i y. apply Hf.
Qed.

Lemma elem_of_concat_imap {A B} (f : nat → A → list B) (l : list A) (y : B) :
  y ∈ concat (imap f l) ↔ ∃ i x, l !! i = Some x ∧ y ∈ f i x.
Proof.
  revert f. induction l as [|x l IH]; intros f; simpl.
  - split; [by intros ?%elem_of_nil | by intros (i & z & ? & _)].
  - rewrite elem_of_app, IH. split.
    + intros [H | (i & z & Hl & H)]; [by exists 0, x | by exists (S i), z].
    + intros ([|i] & z & Hl & H); simpl in Hl; [left; by simplify_eq | right; eauto].
Qed.

(** Topics are told apart by the character that follows the common
    prefix, or by their last character. *)
Lemma app_last_eq (l1 l2 s1 s2 : pystr) c1 c2 :
  l1 ++ s1 = l2 ++ s2 → last s1 = Some c1 → last s2 = Some c2 → c1 = c2.
Proof.
  intros H H1 H2. apply (f_equal last) in H.
  rewrite !last_app, H1, H2 in H. congruence.
Qed.

Ltac literals :=
  repeat match goal with
         | H : context [u ?s] |- _ =>
             let x := eval vm_compute in (u s) in change (u s) with x in H
         | |- context [u ?s] =>
             let x := eval vm_compute in (u s) in change (u s) with x
         end.

Lemma total_topic_of_string root i j (s : StringRecord) v :
  (root ++ u "/emeter-dc/" ++ str_of_nat i ++ u "/total", v) ∈ string_publishes root j s
  ↔ i = j ∧ v = (energy_total s / 1000)%Q.
Proof.
  unfold string_publishes. rewrite !elem_of_cons, elem_of_nil. split.
  - intros [H | [H | [H | [H | []]]]]; injection H as H Hv;
      apply app_inv_head in H; apply app_inv_head in H.
    + apply app_inj_2 in H as [H _]; [|done]. by apply str_of_nat_inj in H.
    + exfalso. by pose proof (app_last_eq _ _ _ _ 108%N 114%N H eq_refl eq_refl).
    + exfalso. by pose proof (app_last_eq _ _ _ _ 108%N 101%N H eq_refl eq_refl).
    + exfalso. by pose proof (app_last_eq _ _ _ _ 108%N 116%N H eq_refl eq_refl).
  - intros [-> ->]. by left.
Qed.

Lemma total_topic_not_phase root i j (ph : PhaseRecord) v :
  (root ++ u "/emeter-dc/" ++ str_of_nat i ++ u "/total", v) ∉ phase_publishes root j ph.
Proof.
  unfold phase_publishes. rewrite !elem_of_cons, elem_of_nil.
  intros [H | [H | [H | []]]]; injection H as H Hv;
    apply app_inv_head in H; literals; simpl in H; discriminate.
Qed.

(** C6: the publisher returns after exactly 3 P + 4 S + 2 publish calls,
    which is all it does.  The calls are those of [status_publishes]: for
    each phase [i] its power, voltage and current under
    [{topic}/emeter/{i}/...]; for each DC string [i] its total, power,
    voltage and current under [{topic}/emeter-dc/{i}/...]; the frequency
    and the temperature.  The value published under
    [{topic}/emeter-dc/{i}/total] is, for each DC string [i] and for no
    other index, that string's cumulative energy divided by 1000. *)
Theorem mqtt_send_status_publishes broker inverter_ser data topic st :
  ∃ pubs,
    mqtt_send_status broker inverter_ser data topic st
    = Ret () (log_events (publish_event <$> pubs) st)
    ∧ pubs = status_publishes (status_topic inverter_ser topic) data
    ∧ length pubs = 3 * length (phases data) + 4 * length (strings data) + 2
    ∧ (∀ i phase, phases data !! i = Some phase →
         (status_topic inverter_ser topic ++ u "/emeter/" ++ str_of_nat i ++ u "/power",
          phase_power phase) ∈ pubs
         ∧ (status_topic inverter_ser topic ++ u "/emeter/" ++ str_of_nat i ++ u "/voltage",
            phase_voltage phase) ∈ pubs
         ∧ (status_topic inverter_ser topic ++ u "/emeter/" ++ str_of_nat i ++ u "/current",
            phase_current phase) ∈ pubs)
    ∧ (∀ i s, strings data !! i = Some s →
         (status_topic inverter_ser topic ++ u "/emeter-dc/" ++ str_of_nat i ++ u "/total",
          (energy_total s / 1000)%Q) ∈ pubs
         ∧ (status_topic inverter_ser topic ++ u "/emeter-dc/" ++ str_of_nat i ++ u "/power",
            string_power s) ∈ pubs
         ∧ (status_topic inverter_ser topic ++ u "/emeter-dc/" ++ str_of_nat i
              ++ u "/voltage", string_voltage s) ∈ pubs
         ∧ (status_topic inverter_ser topic ++ u "/emeter-dc/" ++ str_of_nat i
              ++ u "/current", string_current s) ∈ pubs)
    ∧ (status_topic inverter_ser topic ++ u "/frequency", frequency data) ∈ pubs
    ∧ (status_topic inverter_ser topic ++ u "/temperature", temperature data) ∈ pubs
    ∧ ∀ i v,
        (status_topic inverter_ser topic ++ u "/emeter-dc/" ++ str_of_nat i ++ u "/total", v)
          ∈ pubs
        ↔ ∃ s, strings data !! i = Some s ∧ v = (energy_total s / 1000)%Q.
Proof.
  exists (status_publishes (status_topic inverter_ser topic) data).
  split; [apply mqtt_send_status_run|]. split; [done|].
  generalize (status_topic inverter_ser topic). intros root.
  split; [|split; [|split; [|split; [|split]]]].
  - unfold status_publishes. rewrite !length_app.
    rewrite (concat_imap_length _ 3), (concat_imap_length _ 4); [simpl; lia | done..].
  - intros i phase Hi. unfold status_publishes.
    rewrite !elem_of_app, !elem_of_concat_imap.
    repeat split; left; exists i, phase; (split; [done|]);
      unfold phase_publishes; rewrite !elem_of_cons; auto.
  - intros i s Hi. unfold status_publishes.
    rewrite !elem_of_app, !elem_of_concat_imap.
    repeat split; right; left; exists i, s; (split; [done|]);
      unfold string_publishes; rewrite !elem_of_cons; auto.
  - unfold status_publishes. rewrite !elem_of_app, !elem_of_cons. auto.
  - unfold status_publishes. rewrite !elem_of_app, !elem_of_cons. auto.
  - intros i v. unfold status_publishes.
    rewrite !elem_of_app, !elem_of_concat_imap. split.
    + intros [(j & ph & _ & H) | [(j & s & Hj & H) | H]].
      * by apply total_topic_not_phase in H.
      * apply total_topic_of_string in H as [-> ->]. eauto.
      * exfalso. rewrite !elem_of_cons, elem_of_nil in H.
        destruct H as [H | [H | []]]; injection H as H Hv;
          apply app_inv_head in H; literals; simpl in H; discriminate.
    + intros (s & Hs & ->). right. left. exists i, s. split; [done|].
      by apply total_topic_of_string.
Qed.

(** *** Poll orchestrator *)

Lemma while_loop_exit {L} fuel cond body (l : L) st :
  cond l = false → while_loop fuel cond body l st = Ret l st.
Proof. intros H. destruct fuel; simpl; by rewrite H. Qed.

Lemma while_loop_step {L} fuel cond body (l : L) st :
  cond l = true →
  while_loop (S fuel) cond body l st
  = match body l st with
    | Ret l' st' => while_loop fuel cond body l' st'
    | Exc e st' => Exc e st'
    | OutOfFuel => OutOfFuel
    end.
Proof. intros H. simpl. by rewrite H. Qed.

(** What the receive loop leaves behind: it never touches the state; it is
    cut short by an interrupt, or it ends with the attempt counter at zero
    exactly when a payload was extracted. *)
Lemma rx_loop_run script l st :
  rx_loop script l st = Exc KeyboardInterrupt st
  ∨ ∃ l', rx_loop script l st = Ret l' st
          ∧ payload_ttl l' = (if extracts script then 0 else payload_ttl l)%Z
          ∧ com_request l' = com_request l.
Proof.
  revert l. induction script as [|[p| |] script IH]; intros l; simpl.
  - right. by exists l.
  - destruct (IH {| payload_ttl := 0; response := Some p; com_request := com_request l |})
      as [H | (l' & H & Httl & Hreq)]; [by left|].
    right. exists l'. repeat split; [done | | done].
    rewrite Httl. simpl. by destruct (extracts script).
  - apply IH.
  - by left.
Qed.

Lemma attempt_state n ev st :
  add_transactions n (log_events (replicate n ev) (count_transaction (log_event ev st)))
  = add_transactions (S n) (log_events (replicate (S n) ev) st).
Proof.
  unfold add_transactions, log_events, count_transaction, log_event. simpl.
  f_equal; [by rewrite <- app_assoc | lia].
Qed.

Lemma no_attempt_state st ev : add_transactions 0 (log_events (replicate 0 ev) st) = st.
Proof.
  destruct st. unfold add_transactions, log_events. simpl.
  f_equal; [by rewrite app_nil_r | lia].
Qed.

(** The retry loop: with fuel for its counter it ends, normally or by an
    interrupt, after [n] transactions that all carry the poll's payload;
    [n] is at most the counter, and an attempt that extracts a response is
    the last one. *)
Lemma retry_loop_run env dtu_ser inverter_ser payload fuel l st :
  (payload_ttl l ≤ Z.of_nat fuel)%Z →
  ∃ n st',
    st' = add_transactions n
            (log_events (replicate n (EvTransaction dtu_ser inverter_ser payload)) st)
    ∧ ((∃ l', while_loop fuel (λ l, 0 <? payload_ttl l)%Z
                (retry_body compose_esb_packet env dtu_ser inverter_ser payload) l st
              = Ret l' st')
       ∨ while_loop fuel (λ l, 0 <? payload_ttl l)%Z
           (retry_body compose_esb_packet env dtu_ser inverter_ser payload) l st
         = Exc KeyboardInterrupt st')
    ∧ (Z.of_nat n ≤ Z.max 0 (payload_ttl l))%Z
    ∧ ((0 < payload_ttl l)%Z → 1 ≤ n)
    ∧ ∀ k, k < n → extracts (rx_script env (transactions st + k)) = true → n = S k.
Proof.
  revert l st. induction fuel as [|fuel IH]; intros l st Hfuel.
  - exists 0, st. rewrite no_attempt_state. split; [done|].
    assert (Hc : (0 <? payload_ttl l)%Z = false) by (apply Z.ltb_ge; lia).
    rewrite while_loop_exit by done.
    repeat split; [left; by exists l | lia.. |]. intros k Hk. lia.
  - destruct (0 <? payload_ttl l)%Z eqn:Hc.
    2:{ exists 0, st. rewrite no_attempt_state. split; [done|].
        rewrite while_loop_exit by done. apply Z.ltb_ge in Hc.
        repeat split; [left; by exists l | lia.. |]. intros k Hk. lia. }
    apply Z.ltb_lt in Hc as Hpos.
    set (ev := EvTransaction dtu_ser inverter_ser payload).
    set (st1 := count_transaction (log_event ev st)).
    set (l1 := {| payload_ttl := payload_ttl l - 1; response := None;
                  com_request := Some (compose_esb_packet payload dtu_ser inverter_ser) |}).
    assert (Hbody : retry_body compose_esb_packet env dtu_ser inverter_ser payload l st
                    = rx_loop (rx_script env (transactions st)) l1 st1) by done.
    destruct (rx_loop_run (rx_script env (transactions st)) l1 st1)
      as [Hrx | (l' & Hrx & Httl & _)].
    + exists 1, st1.
      split; [by rewrite <- (attempt_state 0), no_attempt_state|].
      split; [right; by rewrite while_loop_step, Hbody, Hrx|].
      repeat split; [lia.. |]. intros k Hk _. lia.
    + destruct (IH l' st1) as (n & st' & Hst' & Hrun & Hn & _ & Hlast).
      { rewrite Httl. destruct (extracts _); simpl in *; lia. }
      exists (S n), st'. split; [rewrite Hst'; apply attempt_state|].
      assert (Hstep : while_loop (S fuel) (λ l, 0 <? payload_ttl l)%Z
                (retry_body compose_esb_packet env dtu_ser inverter_ser payload) l st
              = while_loop fuel (λ l, 0 <? payload_ttl l)%Z
                  (retry_body compose_esb_packet env dtu_ser inverter_ser payload) l' st1).
      { by rewrite while_loop_step, Hbody, Hrx. }
      rewrite Hstep. split; [done|].
      assert (Hn' : (Z.of_nat n ≤ Z.max 0 (payload_ttl l - 1))%Z).
      { rewrite Httl in Hn. destruct (extracts _); simpl in *; lia. }
      repeat split; [lia.. |].
      intros [|k] Hk Hex.
      * rewrite Nat.add_0_r in Hex. rewrite Httl, Hex in Hn. simpl in Hn. lia.
      * f_equal. apply Hlast; [lia|].
        replace (transactions st1 + k) with (transactions st + S k); [done|].
        subst st1. simpl. lia.
Qed.

Lemma next_payload_run env inverter_ser st :
  next_payload env inverter_ser st
  = match command_queue st !! str_of_int inverter_ser with
    | None => Exc KeyError st
    | Some [] => Ret (set_time_payload env (transactions st)) st
    | Some (p :: rest) =>
        Ret p (set_command_queue
                 (<[str_of_int inverter_ser := rest]> (command_queue st)) st)
    end.
Proof.
  unfold next_payload, queue_of, set_queue. run_monad.
  by destruct (_ !! _) as [[|p rest]|].
Qed.

Lemma set_command_queue_tl key q st :
  command_queue st !! key = Some q →
  match q with
  | [] => st
  | _ :: rest => set_command_queue (<[key := rest]> (command_queue st)) st
  end = set_command_queue (<[key := tl q]> (command_queue st)) st.
Proof.
  intros H. destruct q as [|p rest]; [|done].
  simpl. rewrite insert_id by done. by destruct st.
Qed.

(** One poll of an inverter whose queue is [q]: the queue loses its head,
    between one and four transactions are made, all with the head of the
    queue (or the set-time request) as payload, then the status, if any,
    is published; an interrupt can end the poll during a transaction. *)
Lemma poll_inverter_run fuel env cfg inverter st q :
  4 ≤ fuel →
  command_queue st !! str_of_int (serial inverter) = Some q →
  ∃ n pubs st',
    st' = log_events (publish_event <$> pubs)
            (add_transactions n
               (log_events
                  (replicate n (EvTransaction (dtu_serial cfg) (serial inverter)
                                  (hd (set_time_payload env (transactions st)) q)))
                  (set_command_queue
                     (<[str_of_int (serial inverter) := tl q]> (command_queue st)) st)))
    ∧ (poll_inverter compose_esb_packet decode_response fuel env cfg inverter st
       = Ret () st'
       ∨ poll_inverter compose_esb_packet decode_response fuel env cfg inverter st
         = Exc KeyboardInterrupt st')
    ∧ 1 ≤ n ≤ 4
    ∧ ∀ k, k < n → extracts (rx_script env (transactions st + k)) = true → n = S k.
Proof.
  intros Hfuel Hq.
  set (payload := hd (set_time_payload env (transactions st)) q).
  set (st1 := set_command_queue
                (<[str_of_int (serial inverter) := tl q]> (command_queue st)) st).
  assert (Hnext : next_payload env (serial inverter) st = Ret payload st1).
  { rewrite next_payload_run, Hq. subst st1. rewrite <- (set_command_queue_tl _ _ _ Hq).
    by destruct q. }
  destruct (retry_loop_run env (dtu_serial cfg) (serial inverter) payload fuel
              {| payload_ttl := 4; response := None; com_request := None |} st1)
    as (n & st2 & Hst2 & Hrun & Hn & Hone & Hlast); [simpl; lia|].
  simpl in Hn, Hone. specialize (Hone ltac:(lia)).
  assert (Hidx : transactions st1 = transactions st) by done.
  rewrite Hidx in Hlast.
  remember (poll_inverter compose_esb_packet decode_response fuel env cfg inverter st)
    as r eqn:Hr.
  unfold poll_inverter in Hr. unfold mbind at 1 2, M_bind in Hr. rewrite Hnext in Hr.
  assert (Hn4 : 1 ≤ n ≤ 4) by lia.
  exists n. rewrite <- Hst2.
  destruct Hrun as [[l Hrun] | Hrun]; rewrite Hrun in Hr.
  - assert (Hquiet : r = Ret () st2 →
              ∃ pubs st', st' = log_events (publish_event <$> pubs) st2
                          ∧ (r = Ret () st' ∨ r = Exc KeyboardInterrupt st')
                          ∧ 1 ≤ n ≤ 4
                          ∧ ∀ k, k < n →
                              extracts (rx_script env (transactions st + k)) = true →
                              n = S k).
    { intros ->. exists [], st2. rewrite log_events_nil. repeat split; auto; lia. }
    destruct (response l) as [resp|]; [|by apply Hquiet].
    destruct (truthy resp); [|by apply Hquiet].
    destruct (decode_response _ _ _) as [data|]; [|by apply Hquiet].
    run_monad. destruct (mqtt_client st2); [|by apply Hquiet].
    rewrite mqtt_send_status_run in Hr. eexists _, _. split; [reflexivity|].
    split; [by left | done].
  - exists [], st2. rewrite log_events_nil. split; [done|]. split; [by right | done].
Qed.

Lemma transactions_of_app evs1 evs2 :
  transactions_of (evs1 ++ evs2) = transactions_of evs1 ++ transactions_of evs2.
Proof. apply omap_app. Qed.

Lemma transactions_of_publishes pubs : transactions_of (publish_event <$> pubs) = [].
Proof. induction pubs as [|tv pubs IH]; [done|]. simpl. apply IH. Qed.

Lemma transactions_of_replicate n dtu_ser inverter_ser p :
  transactions_of (replicate n (EvTransaction dtu_ser inverter_ser p))
  = replicate n (inverter_ser, p).
Proof. induction n as [|n IH]; [done|]. simpl. by f_equal. Qed.

(** The transaction log after the state a poll reaches. *)
Lemma transactions_of_poll_state pubs n dtu_ser inverter_ser p q st :
  transactions_of
    (events (log_events (publish_event <$> pubs)
               (add_transactions n
                  (log_events (replicate n (EvTransaction dtu_ser inverter_ser p))
                     (set_command_queue q st)))))
  = transactions_of (events st) ++ replicate n (inverter_ser, p).
Proof.
  simpl. rewrite !transactions_of_app, transactions_of_publishes,
    transactions_of_replicate. by rewrite app_nil_r.
Qed.

(** C2: a poll makes at most four transaction attempts, and the attempt
    in which a response payload is extracted is the last one of the poll.
    With fuel for four passes the retry loop ends. *)
Theorem poll_inverter_attempts fuel env cfg inverter st :
  4 ≤ fuel →
  ∃ n,
    poll_inverter compose_esb_packet decode_response fuel env cfg inverter st ≠ OutOfFuel
    ∧ n ≤ 4
    ∧ transactions
        (final_state
           (poll_inverter compose_esb_packet decode_response fuel env cfg inverter st) st)
      = transactions st + n
    ∧ length (transactions_of
                (events
                   (final_state
                      (poll_inverter compose_esb_packet decode_response fuel env cfg
                         inverter st) st)))
      = length (transactions_of (events st)) + n
    ∧ ∀ k, k < n → extracts (rx_script env (transactions st + k)) = true → n = S k.
Proof.
  intros Hfuel.
  destruct (command_queue st !! str_of_int (serial inverter)) as [q|] eqn:Hq.
  - destruct (poll_inverter_run fuel env cfg inverter st q Hfuel Hq)
      as (n & pubs & st' & Hst' & Hrun & Hn & Hlast).
    exists n.
    assert (Hlog : length (transactions_of (events st'))
                   = length (transactions_of (events st)) + n).
    { rewrite Hst', transactions_of_poll_state, length_app, length_replicate. done. }
    assert (Hcount : transactions st' = transactions st + n) by by rewrite Hst'.
    destruct Hrun as [-> | ->]; simpl; repeat split; auto; lia.
  - exists 0.
    assert (Hrun : poll_inverter compose_esb_packet decode_response fuel env cfg inverter st
                   = Exc KeyError st).
    { unfold poll_inverter. unfold mbind at 1, M_bind. by rewrite next_payload_run, Hq. }
    rewrite Hrun. simpl. repeat split; auto; lia.
Qed.

Lemma for_each_cons {A} (x : A) xs body st :
  for_each (x :: xs) body st
  = match body x st with
    | Ret _ st' => for_each xs body st'
    | Exc e st' => Exc e st'
    | OutOfFuel => OutOfFuel
    end.
Proof. done. Qed.

(** Consecutive polls of one inverter take the queued commands in order. *)
Lemma poll_inverter_fifo fuel env cfg inverter cs :
  4 ≤ fuel →
  ∀ st more st',
    command_queue st !! str_of_int (serial inverter) = Some (cs ++ more) →
    for_each (replicate (length cs) inverter)
      (poll_inverter compose_esb_packet decode_response fuel env cfg) st = Ret () st' →
    command_queue st' = <[str_of_int (serial inverter) := more]> (command_queue st)
    ∧ ∃ ns, length ns = length cs
            ∧ Forall (λ n, 1 ≤ n ≤ 4) ns
            ∧ transactions_of (events st')
              = transactions_of (events st)
                ++ concat (zip_with (λ n c, replicate n (serial inverter, c)) ns cs).
Proof.
  intros Hfuel. induction cs as [|c cs IH]; intros st more st' Hq Hrun.
  - simpl in *. injection Hrun as <-. split; [by rewrite insert_id|].
    exists []. by rewrite app_nil_r.
  - change (replicate (length (c :: cs)) inverter)
      with (inverter :: replicate (length cs) inverter) in Hrun.
    rewrite for_each_cons in Hrun.
    destruct (poll_inverter_run fuel env cfg inverter st _ Hfuel Hq)
      as (n & pubs & st1 & Hst1 & [Hpoll | Hpoll] & Hn & _);
      rewrite Hpoll in Hrun; [|done].
    assert (Hq1 : command_queue st1 !! str_of_int (serial inverter) = Some (cs ++ more)).
    { rewrite Hst1. simpl. apply lookup_insert_eq. }
    destruct (IH st1 more st' Hq1 Hrun) as (Hqueue & ns & Hlen & Hns & Hlog).
    split.
    + rewrite Hqueue, Hst1. simpl. apply insert_insert_eq.
    + exists (n :: ns). split; [simpl; by f_equal|]. split; [by constructor|].
      rewrite Hlog, Hst1, transactions_of_poll_state. simpl. by rewrite <- app_assoc.
Qed.

(** *** Start-up *)

Lemma pretty_N_go_nonempty x s : s ≠ "" → pretty_N_go x s ≠ "".
Proof.
  revert s. induction (N.lt_wf_0 x) as [x _ IH]; intros s Hs.
  destruct (decide (x = 0)%N) as [->|Hx]; [by rewrite pretty_N_go_0|].
  rewrite pretty_N_go_step by lia. apply IH; [|done].
  apply N.div_lt; lia.
Qed.

Lemma str_of_int_nonempty z : str_of_int z ≠ [].
Proof.
  unfold str_of_int. intros H.
  assert (Hnil : pretty z = "") by (apply u_inj; rewrite H; exact eq_refl).
  destruct z as [|p|p]; [done| |done].
  unfold pretty, pretty_Z, pretty, pretty_positive, pretty, pretty_N in Hnil.
  case_decide; [done|].
  rewrite pretty_N_go_step in Hnil by lia.
  by apply pretty_N_go_nonempty in Hnil.
Qed.

Lemma str_of_int_inj z1 z2 : str_of_int z1 = str_of_int z2 → z1 = z2.
Proof. unfold str_of_int. intros H%u_inj. by apply (inj pretty) in H. Qed.

Lemma register_inverter_run inverter st :
  register_inverter inverter st
  = if send_raw_enabled inverter then
      match mqtt_client st with
      | Some _ =>
          Ret () (set_subs
                    (mqtt_command_topic_subs st
                       ++ [(str_of_int (serial inverter), command_topic inverter)])
                    (log_event (EvSubscribe (command_topic inverter))
                       (set_command_queue
                          (<[str_of_int (serial inverter) := []]> (command_queue st)) st)))
      | None =>
          Exc AttributeError
            (set_command_queue
               (<[str_of_int (serial inverter) := []]> (command_queue st)) st)
      end
    else Ret () (set_command_queue
                   (<[str_of_int (serial inverter) := []]> (command_queue st)) st).
Proof.
  unfold register_inverter, subscribe, set_queue. run_monad.
  destruct (send_raw_enabled inverter); [|done].
  change (mqtt_client (set_command_queue _ st)) with (mqtt_client st).
  by destruct (mqtt_client st).
Qed.

Lemma register_inverter_invariant inverter st st' :
  subscriptions_have_queues st →
  register_inverter inverter st = Ret () st' →
  subscriptions_have_queues st' ∧ mqtt_client st' = mqtt_client st.
Proof.
  intros Hinv. rewrite register_inverter_run.
  assert (Hkeep : ∀ item, item ∈ mqtt_command_topic_subs st →
            item.1 ≠ [] ∧
            is_Some (<[str_of_int (serial inverter) := []]> (command_queue st) !! item.1)).
  { intros item [Hne Hq]%Hinv. split; [done|].
    rewrite lookup_insert. case_decide; [by eexists | done]. }
  destruct (send_raw_enabled inverter).
  - destruct (mqtt_client st) eqn:Hc; [|done]. intros [= <-]. split; [|done].
    intros item [Hin | ->%list_elem_of_singleton]%elem_of_app; simpl.
    + by apply Hkeep.
    + split; [apply str_of_int_nonempty|]. rewrite lookup_insert_eq. by eexists.
  - intros [= <-]. split; [|done]. intros item Hin. by apply Hkeep.
Qed.

Lemma for_each_register_invariant invs st st' :
  subscriptions_have_queues st →
  for_each invs register_inverter st = Ret () st' →
  subscriptions_have_queues st'.
Proof.
  revert st. induction invs as [|inverter invs IH]; intros st Hinv.
  - by intros [= <-].
  - rewrite for_each_cons.
    destruct (register_inverter inverter st) as [[] st1| |] eqn:Hreg; [|done..].
    apply IH. by eapply register_inverter_invariant.
Qed.

(** A started gateway has a queue for every subscribed serial. *)
Lemma startup_invariant env cfg st :
  startup env cfg initial_state = Ret () st → subscriptions_have_queues st.
Proof.
  unfold startup, mqtt_setup. run_monad.
  assert (Hempty : ∀ c evs,
    subscriptions_have_queues
      {| command_queue := ∅; mqtt_command_topic_subs := []; mqtt_client := c;
         events := evs; transactions := 0; cycles := 0 |}).
  { intros c evs item H. by apply elem_of_nil in H. }
  destruct (mqtt cfg) as [[|]|], (mqtt_connect env), (radio_begin env); simpl; try done;
    apply for_each_register_invariant; apply Hempty.
Qed.

Lemma mqtt_on_command_invariant now client message st :
  subscriptions_have_queues st →
  subscriptions_have_queues
    (final_state (mqtt_on_command frame_payload str_lower now client message st) st).
Proof.
  intros Hinv.
  unfold mqtt_on_command, queue_of, set_queue. run_monad.
  destruct (lookup_subscription _ _) as [ser|]; simpl; [|done].
  destruct (truthy ser); simpl; [|done].
  destruct (utf8_decode _) as [text|]; simpl; [|done].
  destruct (struct_pack_L _) as [packed|]; simpl; [|done].
  destruct (_ && _); simpl; [|done].
  destruct (fromhex _) as [[|b rest]|]; simpl; [done | | done].
  destruct (Byte.eqb b x80); simpl; [|done].
  destruct (_ !! _) as [q|] eqn:Hq; simpl; [|done].
  intros item [Hne Hitem]%Hinv. split; [done|]. simpl.
  rewrite lookup_insert. case_decide; [by eexists | done].
Qed.

Lemma poll_inverter_invariant fuel env cfg inverter st :
  4 ≤ fuel →
  subscriptions_have_queues st →
  subscriptions_have_queues
    (final_state (poll_inverter compose_esb_packet decode_response fuel env cfg inverter st) st).
Proof.
  intros Hfuel Hinv.
  destruct (command_queue st !! str_of_int (serial inverter)) as [q|] eqn:Hq.
  - destruct (poll_inverter_run fuel env cfg inverter st q Hfuel Hq)
      as (n & pubs & st' & Hst' & Hrun & _).
    assert (Hstate :
      final_state (poll_inverter compose_esb_packet decode_response fuel env cfg inverter st)
        st = st') by by destruct Hrun as [-> | ->].
    rewrite Hstate, Hst'. intros item [Hne Hitem]%Hinv. split; [done|]. simpl.
    rewrite lookup_insert. case_decide; [by eexists | done].
  - assert (Hrun : poll_inverter compose_esb_packet decode_response fuel env cfg inverter st
                   = Exc KeyError st).
    { unfold poll_inverter. unfold mbind at 1, M_bind. by rewrite next_payload_run, Hq. }
    by rewrite Hrun.
Qed.

(** Registering inverters without a bus client: the first inverter with
    the raw-command flag stops start-up with AttributeError, after its
    queue and those of the inverters before it were created. *)
Lemma for_each_register_no_client before inverter after st :
  mqtt_client st = None →
  Forall (λ i, send_raw_enabled i = false) before →
  send_raw_enabled inverter = true →
  for_each (before ++ inverter :: after) register_inverter st
  = Exc AttributeError
      (set_command_queue (registered_queues (before ++ [inverter]) (command_queue st)) st).
Proof.
  revert st. induction before as [|i before IH]; intros st Hc Hbefore Hraw.
  - simpl app. rewrite for_each_cons, register_inverter_run, Hraw, Hc. done.
  - inversion Hbefore as [|? ? Hi Hbefore']; subst.
    simpl app. rewrite for_each_cons, register_inverter_run, Hi.
    rewrite IH by done. done.
Qed.

Lemma first_raw_enabled (invs : list InverterConfig) :
  Exists (λ i, send_raw_enabled i = true) invs →
  ∃ before inverter after,
    invs = before ++ inverter :: after
    ∧ Forall (λ i, send_raw_enabled i = false) before
    ∧ send_raw_enabled inverter = true.
Proof.
  induction invs as [|i invs IH]; intros H; [by apply Exists_nil in H|].
  destruct (send_raw_enabled i) eqn:Hi.
  - by exists [], i, invs.
  - apply Exists_cons in H as [H | H]; [congruence|].
    destruct (IH H) as (before & inverter & after & -> & Hb & Hr).
    exists (i :: before), inverter, after. split; [done|]. split; [by constructor | done].
Qed.

Lemma mqtt_disabled_true cfg : mqtt_disabled cfg = true ↔ mqtt cfg = Some true.
Proof. unfold mqtt_disabled. destruct (mqtt cfg) as [[|]|]; simpl; split; congruence. Qed.

(** Start-up, step by step: the [mqtt] section is read, the bus is
    connected unless it is disabled, the radio is opened, the inverters are
    registered. *)
Lemma startup_run env cfg st :
  startup env cfg st
  = match mqtt cfg with
    | None => Exc AttributeError st
    | Some true =>
        if radio_begin env then for_each (inverters cfg) register_inverter st
        else Exc RuntimeError st
    | Some false =>
        if mqtt_connect env then
          if radio_begin env
          then for_each (inverters cfg) register_inverter
                 (log_event EvConnect (set_client (Some PahoClient) st))
          else Exc RuntimeError (log_event EvConnect (set_client (Some PahoClient) st))
        else Exc OSError (log_event EvConnect (set_client (Some PahoClient) st))
    end.
Proof.
  unfold startup, mqtt_setup. run_monad.
  by destruct (mqtt cfg) as [[|]|], (mqtt_connect env), (radio_begin env).
Qed.

(** C10 (amended): with the bus disabled and a raw-command inverter
    configured the process fails before the poll loop starts; when the
    radio opens, the failure is the AttributeError of [subscribe] on the
    unset client, raised for the first such inverter right after its queue
    was created; when the radio does not open it is the RuntimeError of
    the radio check, and no subscription is attempted. *)
Theorem startup_without_bus_client env cfg :
  mqtt_disabled cfg = true →
  Exists (λ i, send_raw_enabled i = true) (inverters cfg) →
  (∀ fuel, ∃ e st,
      main compose_esb_packet decode_response fuel env cfg initial_state = Exc e st
      ∧ (e = AttributeError ∨ e = RuntimeError)
      ∧ events st = [] ∧ transactions st = 0)
  ∧ (radio_begin env = true →
     ∃ before inverter after,
       inverters cfg = before ++ inverter :: after
       ∧ Forall (λ i, send_raw_enabled i = false) before
       ∧ send_raw_enabled inverter = true
       ∧ startup env cfg initial_state
         = Exc AttributeError
             (set_command_queue (registered_queues (before ++ [inverter]) ∅) initial_state))
  ∧ (radio_begin env = false →
     startup env cfg initial_state = Exc RuntimeError initial_state).
Proof.
  intros Hdis Hraw.
  destruct (first_raw_enabled _ Hraw) as (before & inverter & after & Hinvs & Hb & Hr).
  assert (Hstart : startup env cfg initial_state
                   = if radio_begin env
                     then Exc AttributeError
                            (set_command_queue
                               (registered_queues (before ++ [inverter]) ∅) initial_state)
                     else Exc RuntimeError initial_state).
  { apply mqtt_disabled_true in Hdis. rewrite startup_run, Hdis.
    destruct (radio_begin env); [|done].
    rewrite Hinvs. by apply for_each_register_no_client. }
  split; [|split].
  - intros fuel. unfold main. unfold mbind, M_bind. rewrite Hstart.
    destruct (radio_begin env); eexists _, _; (split; [reflexivity|]); auto.
  - intros Hradio. rewrite Hradio in Hstart. by exists before, inverter, after.
  - intros Hradio. by rewrite Hradio in Hstart.
Qed.

(** *** Poll cycles *)

Lemma poll_inverter_missing_queue fuel env cfg inverter st :
  command_queue st !! str_of_int (serial inverter) = None →
  poll_inverter compose_esb_packet decode_response fuel env cfg inverter st
  = Exc KeyError st.
Proof.
  intros Hq. unfold poll_inverter. unfold mbind at 1, M_bind.
  by rewrite next_payload_run, Hq.
Qed.

Lemma for_each_app_ret {A} (xs ys : list A) body st st' :
  for_each (xs ++ ys) body st = Ret () st' →
  ∃ st1, for_each xs body st = Ret () st1 ∧ for_each ys body st1 = Ret () st'.
Proof.
  revert st. induction xs as [|x xs IH]; intros st Hrun; [by exists st|].
  simpl app in Hrun. rewrite for_each_cons in *.
  destruct (body x st) as [[] st0| |]; [|done..]. by apply IH.
Qed.

Lemma transactions_for_replicate ser n inverter_ser (p : list byte) :
  filter (λ t : Z * list byte, t.1 = ser) (replicate n (inverter_ser, p))
  = if decide (inverter_ser = ser) then replicate n (inverter_ser, p) else [].
Proof.
  induction n as [|n IH]; simpl; [by case_decide|].
  rewrite filter_cons, IH. simpl. by repeat case_decide.
Qed.

(** The poll of another inverter touches neither the queue of this one
    nor the transactions logged for it. *)
Lemma poll_inverter_other fuel env cfg i ser st st' :
  4 ≤ fuel →
  serial i ≠ ser →
  poll_inverter compose_esb_packet decode_response fuel env cfg i st = Ret () st' →
  command_queue st' !! str_of_int ser = command_queue st !! str_of_int ser
  ∧ transactions_for ser (events st') = transactions_for ser (events st).
Proof.
  intros Hfuel Hne Hrun.
  destruct (command_queue st !! str_of_int (serial i)) as [q|] eqn:Hq;
    [|by rewrite poll_inverter_missing_queue in Hrun].
  destruct (poll_inverter_run fuel env cfg i st q Hfuel Hq)
    as (n & pubs & st1 & Hst1 & [Hpoll | Hpoll] & _);
    rewrite Hpoll in Hrun; [|done].
  injection Hrun as <-. split.
  - rewrite Hst1. simpl. apply lookup_insert_ne. by intros ?%str_of_int_inj.
  - unfold transactions_for. rewrite Hst1, transactions_of_poll_state, filter_app.
    rewrite transactions_for_replicate. rewrite decide_False by done. by rewrite app_nil_r.
Qed.

Lemma for_each_poll_others fuel env cfg invs ser :
  4 ≤ fuel →
  Forall (λ i, serial i ≠ ser) invs →
  ∀ st st',
    for_each invs (poll_inverter compose_esb_packet decode_response fuel env cfg) st
      = Ret () st' →
    command_queue st' !! str_of_int ser = command_queue st !! str_of_int ser
    ∧ transactions_for ser (events st') = transactions_for ser (events st).
Proof.
  intros Hfuel. induction invs as [|i invs IH]; intros Hall st st' Hrun.
  - by injection Hrun as <-.
  - inversion Hall as [|? ? Hi Hinvs]; subst. rewrite for_each_cons in Hrun.
    destruct (poll_inverter _ _ _ _ _ i st) as [[] st1| |] eqn:Hpoll; [|done..].
    destruct (poll_inverter_other _ _ _ _ _ _ _ Hfuel Hi Hpoll) as [Hq1 Ht1].
    destruct (IH Hinvs st1 st' Hrun) as [Hq' Ht']. split; congruence.
Qed.

(** With serials that identify the inverters, an enabled inverter is
    polled once in a cycle, and no other poll of the cycle has its
    serial. *)
Lemma enabled_inverters_split (invs : list InverterConfig) inverter :
  inverter ∈ invs →
  disabled inverter = false →
  NoDup (serial <$> invs) →
  ∃ before after,
    List.filter (λ inverter, negb (disabled inverter)) invs = before ++ inverter :: after
    ∧ Forall (λ i, serial i ≠ serial inverter) before
    ∧ Forall (λ i, serial i ≠ serial inverter) after.
Proof.
  intros Hin Hen. induction invs as [|x invs IH]; intros Hnd; [by apply elem_of_nil in Hin|].
  rewrite fmap_cons in Hnd. apply NoDup_cons in Hnd as [Hx Hnd]. simpl.
  apply elem_of_cons in Hin as [<-|Hin].
  - rewrite Hen. simpl. exists [], (List.filter (λ i, negb (disabled i)) invs).
    split; [done|]. split; [constructor|].
    apply Forall_forall. intros i [Hi _]%list_elem_of_In%filter_In Heq. apply Hx.
    rewrite <- Heq. apply list_elem_of_fmap. exists i. split; [done|].
    by apply list_elem_of_In.
  - destruct (IH Hin Hnd) as (before & after & Hsplit & Hb & Ha).
    destruct (negb (disabled x)); [|by exists before, after].
    exists (x :: before), after. rewrite Hsplit. split; [done|]. split; [|done].
    constructor; [|done]. intros Heq. apply Hx. rewrite Heq.
    apply list_elem_of_fmap. by exists inverter.
Qed.

(** A completed cycle, seen from one enabled inverter: its queue loses
    its head, and the transactions the cycle logs for it carry that head,
    or a set-time request when the queue was empty. *)
Lemma main_loop_consumes_head fuel env cfg inverter st q st' :
  4 ≤ fuel →
  inverter ∈ inverters cfg →
  disabled inverter = false →
  NoDup (serial <$> inverters cfg) →
  command_queue st !! str_of_int (serial inverter) = Some q →
  main_loop compose_esb_packet decode_response fuel env cfg st = Ret () st' →
  command_queue st' !! str_of_int (serial inverter) = Some (tl q)
  ∧ ∃ n t,
      1 ≤ n ≤ 4
      ∧ transactions_for (serial inverter) (events st')
        = transactions_for (serial inverter) (events st)
          ++ replicate n (serial inverter, hd (set_time_payload env t) q).
Proof.
  intros Hfuel Hin Hen Hnd Hq Hrun. unfold main_loop in Hrun.
  destruct (enabled_inverters_split _ _ Hin Hen Hnd) as (before & after & Hsplit & Hb & Ha).
  cbv zeta in Hrun. rewrite Hsplit in Hrun.
  apply for_each_app_ret in Hrun as (st1 & Hbefore & Hrun).
  destruct (for_each_poll_others fuel env cfg before _ Hfuel Hb st st1 Hbefore) as [Hq1 Ht1].
  rewrite Hq in Hq1. rewrite for_each_cons in Hrun.
  destruct (poll_inverter_run fuel env cfg inverter st1 q Hfuel Hq1)
    as (n & pubs & st2 & Hst2 & [Hpoll | Hpoll] & Hn & _);
    rewrite Hpoll in Hrun; [|done].
  destruct (for_each_poll_others fuel env cfg after _ Hfuel Ha st2 st' Hrun) as [Hq' Ht'].
  split.
  - rewrite Hq', Hst2. simpl. apply lookup_insert_eq.
  - exists n, (transactions st1). split; [done|].
    rewrite Ht', <- Ht1. unfold transactions_for.
    rewrite Hst2, transactions_of_poll_state, filter_app, transactions_for_replicate.
    by rewrite decide_True.
Qed.

(** The sleep and the cycle counter touch neither the queues nor the
    transactions. *)
Lemma poll_cycle_ret fuel env cfg st st' :
  poll_cycle compose_esb_packet decode_response fuel env cfg st = Ret () st' →
  ∃ st1,
    main_loop compose_esb_packet decode_response fuel env cfg st = Ret () st1
    ∧ command_queue st' = command_queue st1
    ∧ transactions_of (events st') = transactions_of (events st1).
Proof.
  unfold poll_cycle. unfold mbind at 1, M_bind.
  destruct (main_loop _ _ _ _ _ st) as [[] st1| |]; [|done..].
  intros Hrun. exists st1. split; [done|]. revert Hrun.
  unfold mbind at 1, M_bind, get_state. unfold mbind at 1, M_bind.
  destruct (negb _).
  - unfold sleep. destruct (Qlt_le_dec _ _); [done|]. run_monad.
    destruct (sleep_interrupt env (cycles st1)); [done|]. intros [= <-]. simpl.
    split; [done|]. by rewrite transactions_of_app, app_nil_r.
  - run_monad. by intros [= <-].
Qed.

(** The poll loop runs its cycles one after the other: with fuel for [n]
    passes it ends as the first [n] cycles do, and is still running when
    they all complete. *)
Lemma poll_forever_cycles fuel env cfg n st :
  while_loop n (λ _, true)
    (λ _, poll_cycle compose_esb_packet decode_response fuel env cfg) () st
  = match poll_cycles compose_esb_packet decode_response fuel env cfg n st with
    | Ret _ _ => OutOfFuel
    | Exc e st' => Exc e st'
    | OutOfFuel => OutOfFuel
    end.
Proof.
  unfold poll_cycles. revert st. induction n as [|n IH]; intros st; [done|].
  rewrite while_loop_step by done. simpl replicate. rewrite for_each_cons.
  destruct (poll_cycle _ _ _ _ _ st) as [[] st1| |]; [|done..]. apply IH.
Qed.

(** Consecutive cycles take the commands queued for an enabled inverter
    in the order they were queued, one per cycle. *)
Lemma poll_cycles_fifo fuel env cfg inverter cs :
  4 ≤ fuel →
  inverter ∈ inverters cfg →
  disabled inverter = false →
  NoDup (serial <$> inverters cfg) →
  ∀ st more st',
    command_queue st !! str_of_int (serial inverter) = Some (cs ++ more) →
    poll_cycles compose_esb_packet decode_response fuel env cfg (length cs) st
      = Ret () st' →
    command_queue st' !! str_of_int (serial inverter) = Some more
    ∧ ∃ ns, length ns = length cs
            ∧ Forall (λ n, 1 ≤ n ≤ 4) ns
            ∧ transactions_for (serial inverter) (events st')
              = transactions_for (serial inverter) (events st)
                ++ concat (zip_with (λ n c, replicate n (serial inverter, c)) ns cs).
Proof.
  intros Hfuel Hin Hen Hnd. unfold poll_cycles.
  induction cs as [|c cs IH]; intros st more st' Hq Hrun.
  - simpl in *. injection Hrun as <-. split; [done|]. exists []. by rewrite app_nil_r.
  - change (replicate (length (c :: cs)) ()) with (() :: replicate (length cs) ()) in Hrun.
    rewrite for_each_cons in Hrun.
    destruct (poll_cycle _ _ _ _ _ st) as [[] st2| |] eqn:Hcycle; [|done..].
    apply poll_cycle_ret in Hcycle as (st1 & Hloop & Hq2 & Ht2).
    destruct (main_loop_consumes_head fuel env cfg inverter st _ st1
                Hfuel Hin Hen Hnd Hq Hloop) as (Hq1 & n & t & Hn & Ht1).
    simpl in Hq1, Ht1. rewrite <- Hq2 in Hq1.
    destruct (IH st2 more st' Hq1 Hrun) as (Hq' & ns & Hlen & Hns & Ht').
    split; [done|]. exists (n :: ns). split; [simpl; by f_equal|].
    split; [by constructor|].
    rewrite Ht'. unfold transactions_for at 1. rewrite Ht2.
    fold (transactions_for (serial inverter) (events st1)). rewrite Ht1. simpl.
    by rewrite <- app_assoc.
Qed.

(** C5: for an inverter the cycle polls (it is configured, not disabled,
    and its serial identifies it), a poll removes exactly the head of the
    queue, when there is one, and transmits it, while a poll with an empty
    queue transmits a set-time payload and leaves the queue empty; a
    completed poll cycle takes exactly that one entry from the queue, and
    as many consecutive cycles as there are queued commands transmit them
    in the order they were queued, one per cycle. *)
Theorem poll_cycle_consumes_head fuel env cfg inverter st q :
  4 ≤ fuel →
  inverter ∈ inverters cfg →
  disabled inverter = false →
  NoDup (serial <$> inverters cfg) →
  command_queue st !! str_of_int (serial inverter) = Some q →
  (∃ n,
     1 ≤ n ≤ 4
     ∧ poll_inverter compose_esb_packet decode_response fuel env cfg inverter st ≠ OutOfFuel
     ∧ command_queue
         (final_state
            (poll_inverter compose_esb_packet decode_response fuel env cfg inverter st) st)
       = <[str_of_int (serial inverter) := tl q]> (command_queue st)
     ∧ transactions_of
         (events
            (final_state
               (poll_inverter compose_esb_packet decode_response fuel env cfg inverter st)
               st))
       = transactions_of (events st)
         ++ replicate n (serial inverter, hd (set_time_payload env (transactions st)) q))
  ∧ (∀ st',
       main_loop compose_esb_packet decode_response fuel env cfg st = Ret () st' →
       command_queue st' !! str_of_int (serial inverter) = Some (tl q)
       ∧ ∃ n t,
           1 ≤ n ≤ 4
           ∧ transactions_for (serial inverter) (events st')
             = transactions_for (serial inverter) (events st)
               ++ replicate n (serial inverter, hd (set_time_payload env t) q))
  ∧ ∀ cs more st',
      q = cs ++ more →
      poll_cycles compose_esb_packet decode_response fuel env cfg (length cs) st
        = Ret () st' →
      command_queue st' !! str_of_int (serial inverter) = Some more
      ∧ ∃ ns, length ns = length cs
              ∧ Forall (λ n, 1 ≤ n ≤ 4) ns
              ∧ transactions_for (serial inverter) (events st')
                = transactions_for (serial inverter) (events st)
                  ++ concat (zip_with (λ n c, replicate n (serial inverter, c)) ns cs).
Proof.
  intros Hfuel Hin Hen Hnd Hq. split; [|split].
  - destruct (poll_inverter_run fuel env cfg inverter st q Hfuel Hq)
      as (n & pubs & st' & Hst' & Hrun & Hn & _).
    assert (Hstate :
      final_state
        (poll_inverter compose_esb_packet decode_response fuel env cfg inverter st) st
      = st') by by destruct Hrun as [-> | ->].
    rewrite Hstate. exists n. split; [done|]. split; [by destruct Hrun as [-> | ->]|].
    split; [by rewrite Hst'|]. by rewrite Hst', transactions_of_poll_state.
  - intros st' Hcycle. by apply (main_loop_consumes_head fuel env cfg inverter st q st').
  - intros cs more st' -> Hcycles. by apply (poll_cycles_fifo fuel env cfg inverter cs).
Qed.

(** *** The interrupt handler *)

Lemma raises_within_bind {A B} P (m : M A) (f : A → M B) :
  raises_within P m → (∀ a, raises_within P (f a)) → raises_within P (m ≫= f).
Proof.
  intros Hm Hf st e st'. unfold mbind, M_bind.
  destruct (m st) as [a st1|e1 st1|] eqn:Hrun; [|intros [= <- <-]|done].
  - apply Hf.
  - by apply (Hm st e1 st1).
Qed.

Lemma raises_within_ret {A} P (a : A) : raises_within P (mret a).
Proof. by intros st e st'. Qed.

Lemma raises_within_modify P f : raises_within P (modify f).
Proof. by intros st e st'. Qed.

Lemma raises_within_get P : raises_within P get_state.
Proof. by intros st e st'. Qed.

Lemma raises_within_raise {A} (P : exn → Prop) e : P e → raises_within P (@raise A e).
Proof. intros He st e' st' [= <- <-]. done. Qed.

Lemma raises_within_while {L} P fuel cond (body : L → M L) l :
  (∀ l, raises_within P (body l)) → raises_within P (while_loop fuel cond body l).
Proof.
  intros Hbody. revert l. induction fuel as [|fuel IH]; intros l; simpl;
    destruct (cond l); try apply raises_within_ret; [done|].
  apply raises_within_bind; [apply Hbody | apply IH].
Qed.

Lemma raises_within_for_each {A} P (xs : list A) body :
  (∀ x, raises_within P (body x)) → raises_within P (for_each xs body).
Proof.
  intros Hbody. induction xs as [|x xs IH]; simpl; [apply raises_within_ret|].
  apply raises_within_bind; [apply Hbody | by intros _].
Qed.

Lemma raises_within_rx_loop script l : raises_within poll_loop_exn (rx_loop script l).
Proof.
  revert l. induction script as [|[p| |] script IH]; intros l; simpl.
  - apply raises_within_ret.
  - apply IH.
  - apply IH.
  - apply raises_within_raise. right. by left.
Qed.

Lemma raises_within_poll_inverter fuel env cfg inverter :
  raises_within poll_loop_exn
    (poll_inverter compose_esb_packet decode_response fuel env cfg inverter).
Proof.
  unfold poll_inverter. apply raises_within_bind.
  - intros st e st'. rewrite next_payload_run.
    destruct (_ !! _) as [[|p rest]|]; [done..|]. intros [= <- <-]. by left.
  - intros payload. apply raises_within_bind.
    + apply raises_within_while. intros l. unfold retry_body.
      apply raises_within_bind; [apply raises_within_get|]. intros st.
      apply raises_within_bind; [apply raises_within_modify|]. intros _.
      apply raises_within_bind; [apply raises_within_modify|]. intros _.
      apply raises_within_rx_loop.
    + intros l. destruct (response l) as [resp|]; [|apply raises_within_ret].
      destruct (truthy resp); [|apply raises_within_ret].
      destruct (decode_response _ _ _); [|apply raises_within_ret].
      apply raises_within_bind; [apply raises_within_get|]. intros st.
      destruct (mqtt_client st); [|apply raises_within_ret].
      intros st1 e st'. by rewrite mqtt_send_status_run.
Qed.

Lemma raises_within_poll_cycle fuel env cfg :
  raises_within poll_loop_exn (poll_cycle compose_esb_packet decode_response fuel env cfg).
Proof.
  unfold poll_cycle. apply raises_within_bind.
  - apply raises_within_for_each. intros inverter. apply raises_within_poll_inverter.
  - intros _. apply raises_within_bind; [apply raises_within_get|]. intros st.
    apply raises_within_bind; [|intros _; apply raises_within_modify].
    destruct (negb _); [|apply raises_within_ret].
    unfold sleep. destruct (Qlt_le_dec _ _).
    + apply raises_within_raise. right. by right.
    + apply raises_within_bind; [apply raises_within_modify|]. intros _.
      apply raises_within_bind; [apply raises_within_get|]. intros st1.
      destruct (sleep_interrupt env (cycles st1)); [|apply raises_within_ret].
      apply raises_within_raise. right. by left.
Qed.

(** The poll loop does not return, and no SystemExit comes out of it. *)
Lemma poll_forever_outcome fuel env cfg st :
  (∀ st', poll_forever compose_esb_packet decode_response fuel env cfg st ≠ Ret () st')
  ∧ raises_within poll_loop_exn (poll_forever compose_esb_packet decode_response fuel env cfg).
Proof.
  split.
  - unfold poll_forever. generalize fuel at 1. intros n. revert st.
    induction n as [|n IH]; intros st st'; simpl; [done|].
    unfold mbind, M_bind. destruct (poll_cycle _ _ _ _ _ st) as [[] st1|e st1|]; [|done..].
    apply IH.
  - unfold poll_forever. apply raises_within_while. intros _.
    apply raises_within_poll_cycle.
Qed.

(** An interrupt during a transaction ends the poll with
    KeyboardInterrupt: the handler of [Exception] does not catch it. *)
Lemma rx_loop_interrupted script l st :
  RxInterrupt ∈ script → extracts script = false →
  rx_loop script l st = Exc KeyboardInterrupt st.
Proof.
  revert l. induction script as [|[p| |] script IH]; intros l Hin Hex; simpl in *.
  - by apply elem_of_nil in Hin.
  - done.
  - apply IH; [|done]. by apply elem_of_cons in Hin as [?|?].
  - done.
Qed.

(** C8: a KeyboardInterrupt that leaves the poll loop, wherever it was
    raised, is handled by powering the radio down and then exiting: the
    power-down is the last call the process makes. *)
Theorem interrupt_powers_down fuel env cfg st st' :
  poll_forever compose_esb_packet decode_response fuel env cfg st
    = Exc KeyboardInterrupt st' →
  guarded_poll_loop compose_esb_packet decode_response fuel env cfg st
    = Exc SystemExit (log_event EvPowerDown st')
  ∧ events (log_event EvPowerDown st') = events st' ++ [EvPowerDown].
Proof.
  intros Hrun. split; [|done].
  unfold guarded_poll_loop, try_except. rewrite Hrun.
  rewrite decide_True by done. done.
Qed.

(** X15: conversely the guarded loop exits only through the handler: a
    SystemExit comes from a KeyboardInterrupt that left the poll loop, and
    the power-down of the radio was logged just before. *)
Lemma guarded_poll_loop_exit fuel env cfg st st'' :
  guarded_poll_loop compose_esb_packet decode_response fuel env cfg st
    = Exc SystemExit st'' →
  ∃ st', poll_forever compose_esb_packet decode_response fuel env cfg st
           = Exc KeyboardInterrupt st'
         ∧ st'' = log_event EvPowerDown st'.
Proof.
  unfold guarded_poll_loop, try_except.
  destruct (poll_forever_outcome fuel env cfg st) as [_ Hexn].
  destruct (poll_forever _ _ _ _ _ st) as [[] st1|e st1|] eqn:Hrun; [done| |done].
  case_decide as He.
  - subst e. run_monad. intros [= <-]. by exists st1.
  - intros [= -> <-]. by destruct (Hexn st SystemExit st1 Hrun) as [?|[?|?]].
Qed.

(** The interrupt never escapes the guarded loop. *)
Lemma guarded_poll_loop_catches fuel env cfg st st' :
  guarded_poll_loop compose_esb_packet decode_response fuel env cfg st
    ≠ Exc KeyboardInterrupt st'.
Proof.
  unfold guarded_poll_loop, try_except.
  destruct (poll_forever _ _ _ _ _ st) as [[] st1|e st1|]; [done| |done].
  case_decide as He; [done|]. by intros [= -> _].
Qed.

(** *** The sleep between cycles *)

(** For a positive interval the sleep is the time elapsed since the last
    multiple of the interval: it lies in [[0, interval)], so [time.sleep]
    accepts it. *)
Lemma sleep_length_range (now loop_interval : Q) :
  (0 < loop_interval)%Q →
  (0 <= sleep_length now loop_interval)%Q
  ∧ (sleep_length now loop_interval < loop_interval)%Q.
Proof.
  intros Hpos. unfold sleep_length, py_mod.
  assert (Hne : ¬ (loop_interval == 0)%Q) by (intros H; rewrite H in Hpos; by apply Qlt_irrefl in Hpos).
  pose proof (Qfloor_le (now / loop_interval)) as Hlo.
  pose proof (Qlt_floor (now / loop_interval)) as Hhi.
  assert (Hnow : (now == now / loop_interval * loop_interval)%Q)
    by (by rewrite Qmult_comm, Qmult_div_r).
  split.
  - apply (Qmult_le_compat_r _ _ loop_interval) in Hlo; [|by apply Qlt_le_weak].
    rewrite <- Hnow in Hlo. apply Qle_minus_iff in Hlo. exact Hlo.
  - apply (Qmult_lt_compat_r _ _ loop_interval) in Hhi; [|done].
    rewrite <- Hnow in Hhi. rewrite inject_Z_plus in Hhi.
    apply Qlt_minus_iff. apply Qlt_minus_iff in Hhi.
    assert (E : (loop_interval
                 + - (now + - (inject_Z (Qfloor (now / loop_interval)) * loop_interval))
                 == (inject_Z (Qfloor (now / loop_interval)) + inject_Z 1) * loop_interval
                    + - now)%Q) by (change (inject_Z 1) with 1%Q; ring).
    rewrite E. exact Hhi.
Qed.

(** It is the sleep the claim describes, [interval - (now mod interval)],
    only when the cycle ends exactly half way between two multiples of the
    interval. *)
Lemma sleep_length_complement (now loop_interval : Q) :
  (sleep_length now loop_interval == loop_interval - py_mod now loop_interval)%Q
  ↔ (2 * py_mod now loop_interval == loop_interval)%Q.
Proof.
  unfold sleep_length. generalize (py_mod now loop_interval). intros m.
  split; intros H; lra.
Qed.

(** *** Further properties: start-up *)

Lemma registered_queues_lookup (invs : list InverterConfig)
    (q : gmap (list N) (list (list byte))) (key : list N) :
  registered_queues invs q !! key
  = if bool_decide (Exists (λ i, str_of_int (serial i) = key) invs)
    then Some [] else q !! key.
Proof.
  revert q. induction invs as [|i invs IH]; intros q.
  - case_bool_decide as H; [by apply Exists_nil in H | done].
  - change (registered_queues (i :: invs) q)
      with (registered_queues invs (<[str_of_int (serial i) := []]> q)).
    rewrite IH. case_bool_decide as Hrest.
    + rewrite bool_decide_eq_true_2; [done|]. by right.
    + destruct (decide (str_of_int (serial i) = key)) as [Heq|Hne].
      * rewrite bool_decide_eq_true_2 by by left. subst key. apply lookup_insert_eq.
      * rewrite bool_decide_eq_false_2.
        -- by apply lookup_insert_ne.
        -- by intros [?|?]%Exists_cons.
Qed.

Lemma for_each_register_queues invs st st' :
  for_each invs register_inverter st = Ret () st' →
  command_queue st' = registered_queues invs (command_queue st)
  ∧ mqtt_client st' = mqtt_client st.
Proof.
  revert st. induction invs as [|i invs IH]; intros st.
  - by intros [= <-].
  - rewrite for_each_cons, register_inverter_run.
    destruct (send_raw_enabled i); [destruct (mqtt_client st) eqn:Hc; [|done]|];
      intros [-> ->]%IH; simpl; by rewrite ?Hc.
Qed.

Lemma for_each_register_with_client invs st client :
  mqtt_client st = Some client →
  for_each invs register_inverter st
  = Ret ()
      {| command_queue := registered_queues invs (command_queue st);
         mqtt_command_topic_subs :=
           mqtt_command_topic_subs st
           ++ (subscription_item_of command_topic <$> List.filter send_raw_enabled invs);
         mqtt_client := Some client;
         events :=
           events st
           ++ ((λ i, EvSubscribe (command_topic i)) <$> List.filter send_raw_enabled invs);
         transactions := transactions st;
         cycles := cycles st |}.
Proof.
  revert st. induction invs as [|i invs IH]; intros st Hc.
  - simpl. rewrite !app_nil_r. destruct st; simpl in *. by subst.
  - rewrite for_each_cons, register_inverter_run, Hc.
    destruct (send_raw_enabled i) eqn:Hraw; rewrite IH by done; simpl; rewrite Hraw.
    + simpl. by rewrite <- !app_assoc.
    + done.
Qed.

(** X1: when the configuration has an [mqtt] section that does not
    disable the bus, [connect] returns and the radio opens, start-up
    succeeds: it has connected, created an empty queue for every
    configured inverter, and subscribed the command topic of the inverters
    with the raw-command flag, in configuration order, recording each in
    the table. *)
Theorem startup_with_bus env cfg :
  mqtt cfg = Some false →
  mqtt_connect env = true →
  radio_begin env = true →
  startup env cfg initial_state
  = Ret ()
      {| command_queue := registered_queues (inverters cfg) ∅;
         mqtt_command_topic_subs := subscription_item_of command_topic <$> raw_inverters cfg;
         mqtt_client := Some PahoClient;
         events := EvConnect :: ((λ i, EvSubscribe (command_topic i)) <$> raw_inverters cfg);
         transactions := 0;
         cycles := 0 |}.
Proof.
  intros Hbus Hconnect Hradio. rewrite startup_run, Hbus, Hconnect, Hradio.
  by rewrite (for_each_register_with_client _ _ PahoClient).
Qed.

(** X2: after a successful start-up the queues are exactly those of the
    configured inverters, disabled ones included, and each is empty. *)
Theorem startup_creates_queues env cfg st key :
  startup env cfg initial_state = Ret () st →
  command_queue st !! key
  = if bool_decide (Exists (λ i, str_of_int (serial i) = key) (inverters cfg))
    then Some [] else None.
Proof.
  rewrite startup_run. intros Hrun.
  assert (∃ st0, command_queue st0 = ∅
                 ∧ for_each (inverters cfg) register_inverter st0 = Ret () st)
    as (st0 & Hempty & Hreg).
  { destruct (mqtt cfg) as [[|]|]; [| |done].
    - destruct (radio_begin env); [|done]. eexists. split; [|exact Hrun]. done.
    - destruct (mqtt_connect env); [|done]. destruct (radio_begin env); [|done].
      eexists. split; [|exact Hrun]. done. }
  apply for_each_register_queues in Hreg as [Hq _].
  by rewrite Hq, Hempty, registered_queues_lookup.
Qed.

Lemma for_each_register_no_raw invs st :
  Forall (λ i, send_raw_enabled i = false) invs →
  ∃ st', for_each invs register_inverter st = Ret () st'.
Proof.
  revert st. induction invs as [|i invs IH]; intros st Hraw; [by exists st|].
  inversion Hraw as [|? ? Hi Hinvs]; subst.
  rewrite for_each_cons, register_inverter_run, Hi. by apply IH.
Qed.

(** X3: start-up succeeds exactly when the radio opens and the
    configuration has an [mqtt] section that either leaves the bus enabled,
    with [connect] returning, or disables it, with no inverter that has the
    raw-command flag.  In every other case an exception leaves start-up
    and the poll loop is not reached. *)
Theorem startup_succeeds_iff env cfg :
  (∃ st, startup env cfg initial_state = Ret () st)
  ↔ radio_begin env = true
    ∧ ((mqtt cfg = Some false ∧ mqtt_connect env = true)
       ∨ (mqtt cfg = Some true
          ∧ Forall (λ i, send_raw_enabled i = false) (inverters cfg))).
Proof.
  rewrite startup_run. split.
  - intros [st Hrun]. destruct (mqtt cfg) as [[|]|]; [| |done].
    + destruct (radio_begin env); [|done]. split; [done|]. right. split; [done|].
      apply Forall_forall. intros i Hin.
      destruct (send_raw_enabled i) eqn:Hraw; [|done]. exfalso.
      assert (Hex : Exists (λ i, send_raw_enabled i = true) (inverters cfg))
        by (apply Exists_exists; eauto).
      destruct (first_raw_enabled _ Hex) as (before & inverter & after & Hinvs & Hb & Hr).
      rewrite Hinvs, for_each_register_no_client in Hrun; done.
    + destruct (mqtt_connect env); [|done]. destruct (radio_begin env); [|done].
      split; [done|]. by left.
  - intros [-> [[-> ->] | [-> Hraw]]].
    + eexists. by apply (for_each_register_with_client _ _ PahoClient).
    + by apply for_each_register_no_raw.
Qed.

(** *** Further properties: command channel listener *)

(** Every run of the listener is one of three: it returns without a
    change, it raises with the state unchanged, or it appends one framed
    entry to the queue of the serial the topic resolves to. *)
Lemma mqtt_on_command_cases now client message st :
  mqtt_on_command frame_payload str_lower now client message st = Ret () st
  ∨ (∃ e, mqtt_on_command frame_payload str_lower now client message st = Exc e st
          ∧ (e = UnboundLocalError ∨ e = UnicodeDecodeError ∨ e = StructError
             ∨ e = ValueError
             ∨ (e = KeyError
                ∧ ∃ ser, lookup_subscription (mqtt_command_topic_subs st) (topic message)
                         = Some ser
                         ∧ command_queue st !! ser = None)))
  ∨ ∃ ser q rest,
      lookup_subscription (mqtt_command_topic_subs st) (topic message) = Some ser
      ∧ command_queue st !! ser = Some q
      ∧ mqtt_on_command frame_payload str_lower now client message st
        = Ret () (set_command_queue
                    (<[ser := q ++ [frame_payload rest]]> (command_queue st)) st).
Proof.
  unfold mqtt_on_command, queue_of, set_queue. run_monad.
  destruct (lookup_subscription _ _) as [ser|]; simpl; [|right; left; eauto 10].
  destruct (truthy ser); simpl; [|by left].
  destruct (utf8_decode _) as [text|]; simpl; [|right; left; eauto 10].
  destruct (struct_pack_L _) as [packed|]; simpl; [|right; left; eauto 10].
  destruct (_ && _) eqn:Hval; simpl; [|by left].
  destruct (fromhex _) as [[|b rest]|] eqn:Hdec; simpl; [|..|right; left; eauto 10].
  - by apply validated_fromhex_nonempty in Hval.
  - destruct (Byte.eqb b x80); simpl; [|by left].
    destruct (_ !! _) as [q|] eqn:Hq; simpl.
    + right. right. by exists ser, q, rest.
    + right. left. exists KeyError. split; [done|]. do 4 right. split; [done|]. by exists ser.
Qed.

(** X4: the listener never removes or reorders queued commands and never
    creates or deletes a queue: every queue is kept, or gets one entry at
    its tail; the subscription table, the bus client and the log of
    collaborator calls are not touched. *)
Theorem mqtt_on_command_keeps_entries now client message st key :
  (command_queue
     (final_state (mqtt_on_command frame_payload str_lower now client message st) st) !! key
   = command_queue st !! key
   ∨ ∃ q entry,
       command_queue st !! key = Some q
       ∧ command_queue
           (final_state (mqtt_on_command frame_payload str_lower now client message st) st)
           !! key
         = Some (q ++ [entry]))
  ∧ final_state (mqtt_on_command frame_payload str_lower now client message st) st
    = set_command_queue
        (command_queue
           (final_state (mqtt_on_command frame_payload str_lower now client message st) st))
        st.
Proof.
  assert (Hid : st = set_command_queue (command_queue st) st) by by destruct st.
  destruct (mqtt_on_command_cases now client message st)
    as [-> | [(e & -> & _) | (ser & q & rest & _ & Hq & ->)]]; simpl; auto.
  split; [|done]. destruct (decide (ser = key)) as [->|Hne].
  - right. exists q, (frame_payload rest). by rewrite lookup_insert_eq.
  - left. by rewrite lookup_insert_ne.
Qed.

(** X5: in a gateway whose subscribed serials have queues, an exception
    of the listener is UnboundLocalError, UnicodeDecodeError, struct.error
    or ValueError, never KeyError or IndexError, and it leaves the state
    unchanged. *)
Theorem mqtt_on_command_exceptions now client message st e st' :
  subscriptions_have_queues st →
  mqtt_on_command frame_payload str_lower now client message st = Exc e st' →
  st' = st
  ∧ (e = UnboundLocalError ∨ e = UnicodeDecodeError ∨ e = StructError ∨ e = ValueError).
Proof.
  intros Hinv Hrun.
  destruct (mqtt_on_command_cases now client message st)
    as [H | [(e0 & H & He) | (ser & q & rest & _ & _ & H)]];
    rewrite H in Hrun; [done| |done].
  injection Hrun as <- <-. split; [done|].
  destruct He as [?|[?|[?|[?|(_ & ser & Hsub & Hq)]]]]; auto.
  apply lookup_subscription_elem_of, Hinv in Hsub as [_ [q Hq']]. simpl in Hq'. congruence.
Qed.

(** X6: the time is packed before the payload is looked at: once
    [int(time.time())] does not fit 32 bits, every decodable message on a
    subscribed topic ends in struct.error, whether or not it contains the
    time token, and nothing is queued. *)
Theorem mqtt_on_command_clock_out_of_range now client message st ser text :
  subscriptions_have_queues st →
  lookup_subscription (mqtt_command_topic_subs st) (topic message) = Some ser →
  utf8_decode (payload message) = Some text →
  (py_int now < 0 ∨ 2 ^ 32 ≤ py_int now)%Z →
  mqtt_on_command frame_payload str_lower now client message st = Exc StructError st.
Proof.
  intros Hinv Hsub Hdec Hnow.
  destruct (Hinv _ (lookup_subscription_elem_of _ _ _ Hsub)) as [Hne _]. simpl in Hne.
  assert (Hpack : struct_pack_L (py_int now) = None).
  { unfold struct_pack_L.
    assert (Hc : ((0 <=? py_int now) && (py_int now <? 2 ^ 32))%Z = false).
    { apply andb_false_iff. destruct Hnow; [left; by apply Z.leb_gt | right; by apply Z.ltb_ge]. }
    by rewrite Hc. }
  unfold mqtt_on_command. run_monad. rewrite Hsub.
  destruct ser as [|c ser]; [done|]. simpl. by rewrite Hdec, Hpack.
Qed.

Lemma last_lower_hex (p : pystr) c :
  Forall (λ c, is_lower_hex c = true) p → last p = Some c → is_lower_hex c = true.
Proof.
  intros Hall Hlast. rewrite Forall_forall in Hall. apply Hall.
  destruct p as [|x p] using rev_ind; [done|].
  rewrite last_snoc in Hlast. injection Hlast as ->. apply elem_of_app. right. left.
Qed.

(** X7: on a subscribed topic the listener raises ValueError exactly for
    text that passes the validation and ends with a newline. *)
Theorem mqtt_on_command_value_error now client message st ser p :
  subscriptions_have_queues st →
  lookup_subscription (mqtt_command_topic_subs st) (topic message) = Some ser →
  expanded_text str_lower now (payload message) = Some p →
  mqtt_on_command frame_payload str_lower now client message st = Exc ValueError st
  ↔ validated p = true ∧ last p = Some 10%N.
Proof.
  intros Hinv Hsub Hexp.
  destruct (Hinv _ (lookup_subscription_elem_of _ _ _ Hsub)) as [Hne [q Hq]].
  simpl in Hne, Hq.
  rewrite (mqtt_on_command_expanded _ _ _ _ _ _ Hsub Hne Hexp).
  destruct (validated p) eqn:Hval; [|split; [done | by intros [? _]]].
  apply validated_spec in Hval as Hval'. destruct Hval' as (_ & Heven & Hre).
  destruct (re_match_hex_shape p Hre) as [_ [Hall | (h & -> & Hh & Hall)]].
  - destruct (fromhex_even_hex p Hall Heven) as (bs & Hbs & Hlen). rewrite Hbs.
    split.
    + destruct bs as [|b rest]; [done|]. destruct (Byte.eqb b x80); [|done].
      by rewrite Hq.
    + intros [_ Hlast]. by apply (last_lower_hex _ _ Hall) in Hlast.
  - rewrite fromhex_odd_hex_newline, last_snoc; [done..|].
    destruct Heven as [k Hk]. rewrite length_app in Hk. simpl in Hk.
    exists (k - 1). lia.
Qed.

(** Hex text of octets and its decoding. *)
Lemma format_02x_digits (b : byte) :
  ∃ c d top bot,
    format_02x b = [c; d]
    ∧ is_lower_hex c = true ∧ is_lower_hex d = true
    ∧ is_space c = false
    ∧ hex_value c = Some top ∧ hex_value d = Some bot
    ∧ byte_of_N (16 * top + bot) = b.
Proof.
  destruct b;
    (eexists _, _, _, _; split; [reflexivity|]; repeat split; vm_compute; reflexivity).
Qed.

Lemma hexlify_cons b bs : hexlify (b :: bs) = format_02x b ++ hexlify bs.
Proof. done. Qed.

Lemma hexlify_app bs1 bs2 : hexlify (bs1 ++ bs2) = hexlify bs1 ++ hexlify bs2.
Proof. unfold hexlify. by rewrite map_app, concat_app. Qed.

Lemma hexlify_lower_hex bs : Forall (λ c, is_lower_hex c = true) (hexlify bs).
Proof.
  induction bs as [|b bs IH]; [constructor|].
  rewrite hexlify_cons.
  destruct (format_02x_digits b) as (c & d & top & bot & -> & Hc & Hd & _).
  simpl. by repeat constructor.
Qed.

Lemma hexlify_length bs : length (hexlify bs) = 2 * length bs.
Proof.
  induction bs as [|b bs IH]; [done|].
  rewrite hexlify_cons, length_app, IH.
  destruct (format_02x_digits b) as (c & d & top & bot & -> & _). simpl. lia.
Qed.

(** The hex text of octets decodes to the octets. *)
Lemma fromhex_hexlify bs : fromhex (hexlify bs) = Some bs.
Proof.
  induction bs as [|b bs IH]; [done|].
  rewrite hexlify_cons.
  destruct (format_02x_digits b)
    as (c & d & top & bot & -> & _ & _ & Hs & Hc & Hd & Hb).
  change ([c; d] ++ hexlify bs) with (c :: d :: hexlify bs).
  by rewrite (fromhex_cons2 _ _ _ _ _ Hs Hc Hd), IH, Hb.
Qed.

(** Replacing the time token in hex text: hex digits are never part of
    a token, so the token is the only thing that changes. *)
Lemma lower_hex_not_t c : is_lower_hex c = true → (116 =? c)%N = false.
Proof.
  unfold is_lower_hex, in_range. intros H. apply N.eqb_neq. intros <-. done.
Qed.

Lemma str_replace_go_cons old new c (s : pystr) :
  str_replace_go old new 0 (c :: s)
  = if startswith old (c :: s)
    then new ++ str_replace_go old new (length old - 1) s
    else c :: str_replace_go old new 0 s.
Proof. done. Qed.

Lemma startswith_token_hex c (s : pystr) :
  is_lower_hex c = true → startswith (u "tttttttt") (c :: s) = false.
Proof.
  intros Hc. literals.
  change (startswith (116%N :: ?p) (c :: s)) with ((116 =? c)%N && startswith p s).
  by rewrite (lower_hex_not_t c Hc).
Qed.

Lemma str_replace_go_hex new (s : pystr) :
  Forall (λ c, is_lower_hex c = true) s →
  str_replace_go (u "tttttttt") new 0 s = s.
Proof.
  induction s as [|c s IH]; intros Hall; [done|].
  inversion Hall as [|? ? Hc Hs]; subst.
  rewrite str_replace_go_cons, (startswith_token_hex c s Hc). f_equal. by apply IH.
Qed.

Lemma str_replace_go_hex_prefix new (pre s : pystr) :
  Forall (λ c, is_lower_hex c = true) pre →
  str_replace_go (u "tttttttt") new 0 (pre ++ s)
  = pre ++ str_replace_go (u "tttttttt") new 0 s.
Proof.
  induction pre as [|c pre IH]; intros Hall; [done|].
  inversion Hall as [|? ? Hc Hs]; subst.
  change ((c :: pre) ++ s) with (c :: (pre ++ s)).
  rewrite str_replace_go_cons, (startswith_token_hex c _ Hc).
  change ((c :: pre) ++ ?x) with (c :: (pre ++ x)). f_equal. by apply IH.
Qed.

Lemma str_replace_go_token new (post : pystr) :
  str_replace_go (u "tttttttt") new 0 (u "tttttttt" ++ post)
  = new ++ str_replace_go (u "tttttttt") new 0 post.
Proof.
  literals. reflexivity.
Qed.

Lemma str_replace_time_token new (pre post : pystr) :
  Forall (λ c, is_lower_hex c = true) pre →
  Forall (λ c, is_lower_hex c = true) post →
  str_replace (pre ++ u "tttttttt" ++ post) (u "tttttttt") new = pre ++ new ++ post.
Proof.
  intros Hpre Hpost. unfold str_replace.
  rewrite str_replace_go_hex_prefix by done. f_equal.
  by rewrite str_replace_go_token, str_replace_go_hex.
Qed.

Lemma struct_pack_L_length n packed : struct_pack_L n = Some packed → length packed = 4.
Proof.
  unfold struct_pack_L.
  destruct ((0 <=? n) && (n <? 2 ^ 32))%Z; [|discriminate].
  intros H. apply (inj Some) in H. rewrite <- H. apply length_map.
Qed.

(** X8: a time-templated command is hex text with the time token in it.
    For octets [a] and [b], the text of [80 a], the token, and the text of
    [b] is accepted at every time that fits 32 bits, and what is queued is
    the frame of [a], the four octets of the time, most significant first,
    and [b]. *)
Theorem mqtt_on_command_time_template now client message st ser text a b packed :
  subscriptions_have_queues st →
  lookup_subscription (mqtt_command_topic_subs st) (topic message) = Some ser →
  utf8_decode (payload message) = Some text →
  str_lower text = hexlify (x80 :: a) ++ u "tttttttt" ++ hexlify b →
  struct_pack_L (py_int now) = Some packed →
  2 * (length a + length b) + 10 < 2048 →
  ∃ q, command_queue st !! ser = Some q
  ∧ mqtt_on_command frame_payload str_lower now client message st
    = Ret () (set_command_queue
                (<[ser := q ++ [frame_payload (a ++ packed ++ b)]]> (command_queue st)) st).
Proof.
  intros Hinv Hsub Hdec Hlow Hpack Hlen.
  destruct (Hinv _ (lookup_subscription_elem_of _ _ _ Hsub)) as [Hne [q Hq]].
  simpl in Hne, Hq. exists q. split; [done|].
  assert (Hexp : expanded_text str_lower now (payload message)
                 = Some (hexlify (x80 :: a ++ packed ++ b))).
  { unfold expanded_text. rewrite Hdec, Hpack. simpl. rewrite Hlow.
    fold (hexlify packed).
    rewrite str_replace_time_token by apply hexlify_lower_hex.
    by rewrite <- !hexlify_app. }
  rewrite (mqtt_on_command_expanded _ _ _ _ _ _ Hsub Hne Hexp).
  assert (Hval : validated (hexlify (x80 :: a ++ packed ++ b)) = true).
  { apply validated_spec. rewrite hexlify_length. simpl length. rewrite !length_app.
    rewrite (struct_pack_L_length _ _ Hpack). split; [lia|]. split; [by eexists|].
    apply re_match_hex_all; [|apply hexlify_lower_hex].
    rewrite hexlify_cons. destruct (format_02x_digits x80) as (c & d & ? & ? & -> & _).
    done. }
  by rewrite Hval, fromhex_hexlify, Hq.
Qed.

(** *** Further properties: poll orchestrator *)

Lemma rx_loop_quiet script l st :
  RxInterrupt ∉ script →
  rx_loop script l st
  = Ret {| payload_ttl := if extracts script then 0 else payload_ttl l;
           response := received script (response l);
           com_request := com_request l |} st.
Proof.
  revert l. induction script as [|[p| |] script IH]; intros l Hq; simpl.
  - by destruct l.
  - rewrite IH by (intros H; apply Hq; by right). simpl. by destruct (extracts script).
  - apply IH. intros H. apply Hq. by right.
  - exfalso. apply Hq. left.
Qed.

(** The retry loop when no transaction is interrupted. *)
Lemma retry_loop_quiet env dtu_ser inverter_ser payload fuel :
  ∀ ttl l st,
    payload_ttl l = Z.of_nat ttl →
    ttl ≤ fuel →
    (∀ k, k < ttl → RxInterrupt ∉ rx_script env (transactions st + k)) →
    ∃ l',
      while_loop fuel (λ l, 0 <? payload_ttl l)%Z
        (retry_body compose_esb_packet env dtu_ser inverter_ser payload) l st
      = Ret l'
          (add_transactions (retry_outcome env ttl (transactions st)).1
             (log_events
                (replicate (retry_outcome env ttl (transactions st)).1
                   (EvTransaction dtu_ser inverter_ser payload)) st))
      ∧ (0 < ttl →
         response l' = (retry_outcome env ttl (transactions st)).2
         ∧ com_request l' = Some (compose_esb_packet payload dtu_ser inverter_ser)).
Proof.
  induction fuel as [|fuel IH]; intros ttl l st Httl Hfuel Hquiet.
  - assert (ttl = 0) as -> by lia. exists l. simpl retry_outcome. simpl fst.
    rewrite no_attempt_state, while_loop_exit; [|apply Z.ltb_ge; lia].
    split; [done | lia].
  - destruct ttl as [|k].
    { exists l. simpl retry_outcome. simpl fst.
      rewrite no_attempt_state, while_loop_exit; [|apply Z.ltb_ge; lia].
      split; [done | lia]. }
    set (ev := EvTransaction dtu_ser inverter_ser payload).
    set (st1 := count_transaction (log_event ev st)).
    set (l1 := {| payload_ttl := payload_ttl l - 1; response := None;
                  com_request := Some (compose_esb_packet payload dtu_ser inverter_ser) |}).
    assert (Hbody : retry_body compose_esb_packet env dtu_ser inverter_ser payload l st
                    = rx_loop (rx_script env (transactions st)) l1 st1) by done.
    assert (Hq0 : RxInterrupt ∉ rx_script env (transactions st)).
    { specialize (Hquiet 0 ltac:(lia)). by rewrite Nat.add_0_r in Hquiet. }
    rewrite while_loop_step, Hbody, (rx_loop_quiet _ _ _ Hq0); [|apply Z.ltb_lt; lia].
    simpl retry_outcome. destruct (extracts (rx_script env (transactions st))) eqn:Hex.
    + eexists. rewrite while_loop_exit by done. simpl fst. simpl snd.
      split; [f_equal; by rewrite <- (attempt_state 0), no_attempt_state | done].
    + destruct (IH k
                  {| payload_ttl := payload_ttl l1; response := received
                       (rx_script env (transactions st)) (response l1);
                     com_request := com_request l1 |} st1)
        as (l' & Hrun & Hresp).
      * simpl. lia.
      * lia.
      * intros j Hj. replace (transactions st1 + j) with (transactions st + S j)
          by (subst st1; simpl; lia). apply Hquiet. lia.
      * exists l'. replace (transactions st1) with (S (transactions st)) in * by done.
        simpl fst. simpl snd. split.
        -- rewrite Hrun. f_equal. apply attempt_state.
        -- intros _. destruct k as [|k'].
           ++ simpl in Hrun. rewrite while_loop_exit in Hrun by (simpl; apply Z.ltb_ge; lia).
              injection Hrun as <- _. simpl.
              assert (Hnone : received (rx_script env (transactions st)) None = None).
              { clear -Hex. induction (rx_script env (transactions st)) as [|[p| |] s IHs];
                  simpl in *; auto; done. }
              by rewrite Hnone.
           ++ apply Hresp. lia.
Qed.

(** A poll none of whose transactions is interrupted, in full. *)
Lemma poll_inverter_quiet fuel env cfg inverter st q :
  4 ≤ fuel →
  command_queue st !! str_of_int (serial inverter) = Some q →
  (∀ k, k < 4 → RxInterrupt ∉ rx_script env (transactions st + k)) →
  poll_inverter compose_esb_packet decode_response fuel env cfg inverter st
  = Ret ()
      (log_events
         (publish_event <$>
            response_publishes decode_response (mqtt_client st) inverter
              (retry_outcome env 4 (transactions st)).2
              (Some (compose_esb_packet (hd (set_time_payload env (transactions st)) q)
                       (dtu_serial cfg) (serial inverter))))
         (add_transactions (retry_outcome env 4 (transactions st)).1
            (log_events
               (replicate (retry_outcome env 4 (transactions st)).1
                  (EvTransaction (dtu_serial cfg) (serial inverter)
                     (hd (set_time_payload env (transactions st)) q)))
               (set_command_queue
                  (<[str_of_int (serial inverter) := tl q]> (command_queue st)) st)))).
Proof.
  intros Hfuel Hq Hquiet.
  set (payload := hd (set_time_payload env (transactions st)) q).
  set (st1 := set_command_queue
                (<[str_of_int (serial inverter) := tl q]> (command_queue st)) st).
  assert (Hnext : next_payload env (serial inverter) st = Ret payload st1).
  { rewrite next_payload_run, Hq. subst st1. rewrite <- (set_command_queue_tl _ _ _ Hq).
    by destruct q. }
  destruct (retry_loop_quiet env (dtu_serial cfg) (serial inverter) payload fuel 4
              {| payload_ttl := 4; response := None; com_request := None |} st1)
    as (l & Hrun & Hresp); [done | lia | exact Hquiet |].
  destruct (Hresp ltac:(lia)) as [Hr Hreq].
  change (transactions st1) with (transactions st) in *.
  unfold poll_inverter. unfold mbind at 1 2, M_bind. rewrite Hnext, Hrun, Hr, Hreq.
  unfold response_publishes.
  set (st2 := add_transactions _ _).
  assert (Hc2 : mqtt_client st2 = mqtt_client st) by done.
  destruct (retry_outcome env 4 (transactions st)).2 as [resp|];
    [|simpl; by rewrite log_events_nil].
  destruct (truthy resp).
  2:{ destruct (mqtt_client st); simpl; by rewrite log_events_nil. }
  destruct (decode_response _ _ _) as [data|].
  2:{ destruct (mqtt_client st); simpl; by rewrite log_events_nil. }
  unfold mbind, M_bind, get_state. rewrite Hc2.
  destruct (mqtt_client st); [|simpl; by rewrite log_events_nil].
  apply mqtt_send_status_run.
Qed.

Lemma retry_outcome_exhausted env ttl t :
  (∀ k, k < ttl → extracts (rx_script env (t + k)) = false) →
  retry_outcome env ttl t = (ttl, None).
Proof.
  revert t. induction ttl as [|ttl IH]; intros t Hfail; simpl; [done|].
  rewrite <- (Nat.add_0_r t) at 1. rewrite Hfail by lia.
  rewrite IH; [done|]. intros k Hk. replace (S t + k) with (t + S k) by lia.
  apply Hfail. lia.
Qed.

(** A retry loop that ends normally: it made as many attempts as it
    takes to extract a response, and no more than its counter allows. *)
Lemma retry_loop_ret env dtu_ser inverter_ser payload :
  ∀ ttl fuel l st l' st',
    payload_ttl l = Z.of_nat ttl →
    ttl ≤ fuel →
    while_loop fuel (λ l, 0 <? payload_ttl l)%Z
      (retry_body compose_esb_packet env dtu_ser inverter_ser payload) l st
      = Ret l' st' →
    ∃ n,
      st' = add_transactions n
              (log_events (replicate n (EvTransaction dtu_ser inverter_ser payload)) st)
      ∧ n ≤ ttl
      ∧ (0 < ttl → 1 ≤ n)
      ∧ (∀ k, k + 1 < n → extracts (rx_script env (transactions st + k)) = false)
      ∧ (n < ttl → extracts (rx_script env (transactions st + (n - 1))) = true).
Proof.
  induction ttl as [|ttl IH]; intros fuel l st l' st' Httl Hfuel Hrun.
  - rewrite while_loop_exit in Hrun by (apply Z.ltb_ge; lia). injection Hrun as <- <-.
    exists 0. rewrite no_attempt_state. repeat split; intros; lia.
  - destruct fuel as [|fuel]; [lia|].
    rewrite while_loop_step in Hrun by (apply Z.ltb_lt; lia).
    set (ev := EvTransaction dtu_ser inverter_ser payload).
    set (st1 := count_transaction (log_event ev st)).
    set (l1 := {| payload_ttl := payload_ttl l - 1; response := None;
                  com_request := Some (compose_esb_packet payload dtu_ser inverter_ser) |}).
    change (retry_body compose_esb_packet env dtu_ser inverter_ser payload l st)
      with (rx_loop (rx_script env (transactions st)) l1 st1) in Hrun.
    destruct (rx_loop_run (rx_script env (transactions st)) l1 st1)
      as [Hrx | (l2 & Hrx & Httl2 & _)]; rewrite Hrx in Hrun; [done|].
    destruct (extracts (rx_script env (transactions st))) eqn:Hex.
    + rewrite while_loop_exit in Hrun by (by rewrite Httl2). injection Hrun as <- <-.
      exists 1. split; [by rewrite <- (attempt_state 0), no_attempt_state|].
      repeat split; try lia. intros _.
      by replace (transactions st + (1 - 1)) with (transactions st) by lia.
    + destruct (IH fuel l2 st1 l' st') as (n & Hst' & Hn & Hpos & Hfail & Hsucc);
        [rewrite Httl2; simpl; lia | lia | done |].
      exists (S n). split; [rewrite Hst'; apply attempt_state|].
      split; [lia|]. split; [lia|]. split.
      * intros [|k] Hk; [by rewrite Nat.add_0_r|].
        replace (transactions st + S k) with (transactions st1 + k)
          by (subst st1; simpl; lia).
        apply Hfail. lia.
      * intros Hlt. assert (1 ≤ n) by (apply Hpos; lia).
        replace (transactions st + (S n - 1)) with (transactions st1 + (n - 1))
          by (subst st1; simpl; lia).
        apply Hsucc. lia.
Qed.

(** A poll that returns, in full. *)
Lemma poll_inverter_ret fuel env cfg inverter st q st' :
  4 ≤ fuel →
  command_queue st !! str_of_int (serial inverter) = Some q →
  poll_inverter compose_esb_packet decode_response fuel env cfg inverter st = Ret () st' →
  ∃ n pubs,
    st' = log_events (publish_event <$> pubs)
            (add_transactions n
               (log_events
                  (replicate n (EvTransaction (dtu_serial cfg) (serial inverter)
                                  (hd (set_time_payload env (transactions st)) q)))
                  (set_command_queue
                     (<[str_of_int (serial inverter) := tl q]> (command_queue st)) st)))
    ∧ 1 ≤ n ≤ 4
    ∧ (∀ k, k + 1 < n → extracts (rx_script env (transactions st + k)) = false)
    ∧ (n < 4 → extracts (rx_script env (transactions st + (n - 1))) = true).
Proof.
  intros Hfuel Hq Hrun.
  set (payload := hd (set_time_payload env (transactions st)) q).
  set (st1 := set_command_queue
                (<[str_of_int (serial inverter) := tl q]> (command_queue st)) st).
  assert (Hnext : next_payload env (serial inverter) st = Ret payload st1).
  { rewrite next_payload_run, Hq. subst st1. rewrite <- (set_command_queue_tl _ _ _ Hq).
    by destruct q. }
  unfold poll_inverter in Hrun. unfold mbind at 1 2, M_bind in Hrun. rewrite Hnext in Hrun.
  destruct (while_loop fuel _ _ _ st1) as [l st2| |] eqn:Hloop; [|done..].
  destruct (retry_loop_ret env (dtu_serial cfg) (serial inverter) payload 4 fuel
              {| payload_ttl := 4; response := None; com_request := None |} st1 l st2)
    as (n & Hst2 & Hn & Hpos & Hfail & Hsucc); [done | done | exact Hloop |].
  change (transactions st1) with (transactions st) in *.
  exists n. rewrite <- Hst2.
  assert (Hquiet : Ret () st2 = Ret () st' →
            ∃ pubs, st' = log_events (publish_event <$> pubs) st2
                    ∧ 1 ≤ n ≤ 4
                    ∧ (∀ k, k + 1 < n →
                            extracts (rx_script env (transactions st + k)) = false)
                    ∧ (n < 4 →
                       extracts (rx_script env (transactions st + (n - 1))) = true)).
  { intros [= <-]. exists []. rewrite log_events_nil. repeat split; auto; lia. }
  destruct (response l) as [resp|]; [|by apply Hquiet].
  destruct (truthy resp); [|by apply Hquiet].
  destruct (decode_response _ _ _) as [data|]; [|by apply Hquiet].
  revert Hrun. unfold mbind, M_bind, get_state.
  destruct (mqtt_client st2); [|by apply Hquiet].
  rewrite mqtt_send_status_run. intros [= <-]. eexists. split; [reflexivity|].
  repeat split; auto; lia.
Qed.

(** X9: a poll that returns made exactly as many attempts as it takes to
    extract a response, four at most.  It made [n] transactions, between
    one and four, all with the payload of the poll: the first [n - 1]
    extracted nothing, and when fewer than four were made the last one
    extracted a payload.  The retry loop neither gives up early nor goes
    on after a response. *)
Theorem poll_inverter_retries fuel env cfg inverter st q st' :
  4 ≤ fuel →
  command_queue st !! str_of_int (serial inverter) = Some q →
  poll_inverter compose_esb_packet decode_response fuel env cfg inverter st = Ret () st' →
  ∃ n,
    1 ≤ n ≤ 4
    ∧ transactions st' = transactions st + n
    ∧ transactions_of (events st')
      = transactions_of (events st)
        ++ replicate n (serial inverter, hd (set_time_payload env (transactions st)) q)
    ∧ (∀ k, k + 1 < n → extracts (rx_script env (transactions st + k)) = false)
    ∧ (n < 4 → extracts (rx_script env (transactions st + (n - 1))) = true).
Proof.
  intros Hfuel Hq Hrun.
  destruct (poll_inverter_ret fuel env cfg inverter st q st' Hfuel Hq Hrun)
    as (n & pubs & -> & Hn & Hfail & Hsucc).
  exists n. split; [done|]. split; [done|].
  split; [by rewrite transactions_of_poll_state|]. by split.
Qed.

(** X10: delivery is at most once.  When a queued command is polled and
    none of the four attempts extracts a response, the poll returns
    normally with the command removed from the queue: it is not put back,
    nothing is published, and the four transactions carried it. *)
Theorem poll_inverter_command_lost fuel env cfg inverter st p rest :
  4 ≤ fuel →
  command_queue st !! str_of_int (serial inverter) = Some (p :: rest) →
  (∀ k, k < 4 → RxInterrupt ∉ rx_script env (transactions st + k)) →
  (∀ k, k < 4 → extracts (rx_script env (transactions st + k)) = false) →
  poll_inverter compose_esb_packet decode_response fuel env cfg inverter st
  = Ret ()
      (add_transactions 4
         (log_events (replicate 4 (EvTransaction (dtu_serial cfg) (serial inverter) p))
            (set_command_queue
               (<[str_of_int (serial inverter) := rest]> (command_queue st)) st))).
Proof.
  intros Hfuel Hq Hquiet Hfail.
  rewrite (poll_inverter_quiet fuel env cfg inverter st _ Hfuel Hq Hquiet).
  rewrite (retry_outcome_exhausted env 4 _ Hfail). simpl. by rewrite log_events_nil.
Qed.

(** X11: when the first attempt extracts, the poll makes one transaction
    and, with a bus client set and a status decoded from the last payload
    that attempt received, publishes exactly the calls of that status
    record; the decoder is given the request of this poll's payload. *)
Theorem poll_inverter_publishes_status fuel env cfg inverter st q client resp data :
  4 ≤ fuel →
  command_queue st !! str_of_int (serial inverter) = Some q →
  RxInterrupt ∉ rx_script env (transactions st) →
  received (rx_script env (transactions st)) None = Some resp →
  resp ≠ [] →
  mqtt_client st = Some client →
  decode_response resp
    (Some (compose_esb_packet (hd (set_time_payload env (transactions st)) q)
             (dtu_serial cfg) (serial inverter)))
    (serial inverter) = StatusResponse data →
  poll_inverter compose_esb_packet decode_response fuel env cfg inverter st
  = Ret ()
      (log_events
         (publish_event <$>
            status_publishes (status_topic (serial inverter) (mqtt_topic inverter)) data)
         (add_transactions 1
            (log_events
               [EvTransaction (dtu_serial cfg) (serial inverter)
                  (hd (set_time_payload env (transactions st)) q)]
               (set_command_queue
                  (<[str_of_int (serial inverter) := tl q]> (command_queue st)) st)))).
Proof.
  intros Hfuel Hq Hquiet Hrecv Hne Hclient Hdec.
  assert (Hex : extracts (rx_script env (transactions st)) = true).
  { clear -Hrecv. induction (rx_script env (transactions st)) as [|[p| |] s IHs];
      simpl in *; auto; done. }
  set (payload := hd (set_time_payload env (transactions st)) q) in *.
  set (st1 := set_command_queue
                (<[str_of_int (serial inverter) := tl q]> (command_queue st)) st).
  assert (Hnext : next_payload env (serial inverter) st = Ret payload st1).
  { rewrite next_payload_run, Hq. subst st1. rewrite <- (set_command_queue_tl _ _ _ Hq).
    by destruct q. }
  set (ev := EvTransaction (dtu_serial cfg) (serial inverter) payload).
  set (st2 := count_transaction (log_event ev st1)).
  assert (Hloop :
    while_loop fuel (λ l, 0 <? payload_ttl l)%Z
      (retry_body compose_esb_packet env (dtu_serial cfg) (serial inverter) payload)
      {| payload_ttl := 4; response := None; com_request := None |} st1
    = Ret {| payload_ttl := 0; response := Some resp;
             com_request := Some (compose_esb_packet payload (dtu_serial cfg)
                                    (serial inverter)) |} st2).
  { destruct fuel as [|fuel]; [lia|].
    rewrite while_loop_step by done.
    change (retry_body compose_esb_packet env (dtu_serial cfg) (serial inverter) payload
              {| payload_ttl := 4; response := None; com_request := None |} st1)
      with (rx_loop (rx_script env (transactions st))
              {| payload_ttl := 4 - 1; response := None;
                 com_request := Some (compose_esb_packet payload (dtu_serial cfg)
                                        (serial inverter)) |} st2).
    rewrite (rx_loop_quiet _ _ _ Hquiet), Hex. simpl. rewrite Hrecv.
    by rewrite while_loop_exit. }
  unfold poll_inverter. unfold mbind at 1 2, M_bind. rewrite Hnext, Hloop. simpl.
  destruct resp as [|b resp]; [done|]. simpl. fold payload. rewrite Hdec.
  unfold mbind, M_bind, get_state.
  change (mqtt_client st2) with (mqtt_client st). rewrite Hclient.
  rewrite mqtt_send_status_run. do 2 f_equal.
  subst st2 ev. symmetry. etrans; [apply (eq_sym (attempt_state 0 _ _))|].
  by rewrite no_attempt_state.
Qed.

(** *** Further properties: the poll loop *)

Lemma preserves_bind {A B} I (m : M A) (f : A → M B) :
  preserves I m → (∀ a, preserves I (f a)) → preserves I (m ≫= f).
Proof.
  intros Hm Hf st Hst. unfold mbind, M_bind. specialize (Hm st Hst).
  destruct (m st) as [a st1|e st1|]; [|done..]. by apply Hf.
Qed.

Lemma preserves_ret {A} I (a : A) : preserves I (mret a).
Proof. by intros st Hst. Qed.

Lemma preserves_raise {A} I e : preserves I (@raise A e).
Proof. by intros st Hst. Qed.

Lemma preserves_get I : preserves I get_state.
Proof. by intros st Hst. Qed.

Lemma preserves_modify (I : State → Prop) f : (∀ st, I st → I (f st)) → preserves I (modify f).
Proof. intros Hf st Hst. by apply Hf. Qed.

Lemma preserves_while {L} I fuel cond (body : L → M L) l :
  (∀ l, preserves I (body l)) → preserves I (while_loop fuel cond body l).
Proof.
  intros Hbody. revert l. induction fuel as [|fuel IH]; intros l; simpl;
    destruct (cond l); try apply preserves_ret; [done|].
  apply preserves_bind; [apply Hbody | apply IH].
Qed.

Lemma preserves_for_each {A} I (xs : list A) body :
  (∀ x, preserves I (body x)) → preserves I (for_each xs body).
Proof.
  intros Hbody. induction xs as [|x xs IH]; simpl; [apply preserves_ret|].
  apply preserves_bind; [apply Hbody | by intros _].
Qed.

Lemma publishes_of_app evs1 evs2 :
  publishes_of (evs1 ++ evs2) = publishes_of evs1 ++ publishes_of evs2.
Proof. apply omap_app. Qed.

Lemma silent_log_event pubs e st :
  publishes_of [e] = [] → silent pubs st → silent pubs (log_event e st).
Proof.
  intros He [Hc Hp]. split; [done|]. simpl. by rewrite publishes_of_app, He, app_nil_r.
Qed.

Lemma preserves_rx_loop I script l : preserves I (rx_loop script l).
Proof.
  revert l. induction script as [|[p| |] script IH]; intros l; simpl.
  - apply preserves_ret.
  - apply IH.
  - apply IH.
  - apply preserves_raise.
Qed.

Lemma silent_poll_inverter pubs fuel env cfg inverter :
  preserves (silent pubs)
    (poll_inverter compose_esb_packet decode_response fuel env cfg inverter).
Proof.
  unfold poll_inverter. apply preserves_bind.
  - unfold next_payload. apply preserves_bind.
    + intros st Hst. unfold queue_of. by destruct (_ !! _).
    + intros [|p rest].
      * apply preserves_bind; [apply preserves_get | intros ?; apply preserves_ret].
      * apply preserves_bind; [|intros ?; apply preserves_ret].
        apply preserves_modify. by intros st [? ?].
  - intros payload. apply preserves_bind.
    + apply preserves_while. intros l. unfold retry_body.
      apply preserves_bind; [apply preserves_get|]. intros st.
      apply preserves_bind; [apply preserves_modify; intros ?; by apply silent_log_event|].
      intros _. apply preserves_bind; [apply preserves_modify; by intros ? [? ?]|].
      intros _. apply preserves_rx_loop.
    + intros l. destruct (response l) as [resp|]; [|apply preserves_ret].
      destruct (truthy resp); [|apply preserves_ret].
      destruct (decode_response _ _ _); [|apply preserves_ret].
      intros st [Hc Hp]. unfold mbind, M_bind, get_state. by rewrite Hc.
Qed.

Lemma silent_poll_cycle pubs fuel env cfg :
  preserves (silent pubs) (poll_cycle compose_esb_packet decode_response fuel env cfg).
Proof.
  unfold poll_cycle. apply preserves_bind.
  - apply preserves_for_each. intros inverter. apply silent_poll_inverter.
  - intros _. apply preserves_bind; [apply preserves_get|]. intros st.
    apply preserves_bind; [|intros _; apply preserves_modify; by intros ? [? ?]].
    destruct (negb _); [|apply preserves_ret].
    unfold sleep. destruct (Qlt_le_dec _ _); [apply preserves_raise|].
    apply preserves_bind; [apply preserves_modify; intros ?; by apply silent_log_event|].
    intros _. apply preserves_bind; [apply preserves_get|]. intros st1.
    destruct (sleep_interrupt env (cycles st1)); [apply preserves_raise | apply preserves_ret].
Qed.

(** X12: without a bus client the gateway never publishes.  Whatever
    exception ends the guarded poll loop, the exit through the interrupt
    handler included, and after any number of completed poll cycles, the
    publish calls in the log are those that were there before, and the
    client is still unset. *)
Theorem poll_loop_without_client_is_silent fuel env cfg st :
  mqtt_client st = None →
  (∀ e st',
     guarded_poll_loop compose_esb_packet decode_response fuel env cfg st = Exc e st' →
     publishes_of (events st') = publishes_of (events st) ∧ mqtt_client st' = None)
  ∧ ∀ n st',
      poll_cycles compose_esb_packet decode_response fuel env cfg n st = Ret () st' →
      publishes_of (events st') = publishes_of (events st) ∧ mqtt_client st' = None.
Proof.
  intros Hc.
  assert (Hbody : preserves (silent (publishes_of (events st)))
                    (poll_forever compose_esb_packet decode_response fuel env cfg)).
  { unfold poll_forever. apply preserves_while. intros _. apply silent_poll_cycle. }
  assert (Hst : silent (publishes_of (events st)) st) by by split.
  split.
  - intros e st' Hrun. specialize (Hbody st Hst).
    unfold guarded_poll_loop, try_except in Hrun.
    destruct (poll_forever _ _ _ _ _ st) as [[] st1|e1 st1|]; [done| |done].
    case_decide.
    + revert Hrun. run_monad. intros [= _ <-].
      destruct (silent_log_event _ EvPowerDown st1 eq_refl Hbody) as [? ?]. by split.
    + injection Hrun as _ <-. destruct Hbody as [? ?]. by split.
  - intros n st' Hrun.
    assert (Hcycles : preserves (silent (publishes_of (events st)))
                        (poll_cycles compose_esb_packet decode_response fuel env cfg n)).
    { unfold poll_cycles. apply preserves_for_each. intros _. apply silent_poll_cycle. }
    specialize (Hcycles st Hst). rewrite Hrun in Hcycles. destruct Hcycles as [? ?].
    by split.
Qed.

Lemma for_each_poll_ret fuel env cfg invs :
  4 ≤ fuel →
  ∀ st st',
    for_each invs (poll_inverter compose_esb_packet decode_response fuel env cfg) st
      = Ret () st' →
    ∃ blocks,
      length blocks = length invs
      ∧ Forall (λ b : nat * list byte, 1 ≤ b.1 ≤ 4) blocks
      ∧ transactions_of (events st')
        = transactions_of (events st)
          ++ concat (zip_with (λ i (b : nat * list byte), replicate b.1 (serial i, b.2))
                       invs blocks).
Proof.
  intros Hfuel. induction invs as [|i invs IH]; intros st st' Hrun.
  - injection Hrun as <-. exists []. simpl. by rewrite app_nil_r.
  - rewrite for_each_cons in Hrun.
    destruct (command_queue st !! str_of_int (serial i)) as [q|] eqn:Hq;
      [|by rewrite poll_inverter_missing_queue in Hrun].
    destruct (poll_inverter _ _ _ _ _ i st) as [[] st1| |] eqn:Hpoll; [|done..].
    destruct (poll_inverter_ret fuel env cfg i st q st1 Hfuel Hq Hpoll)
      as (n & pubs & Hst1 & Hn & _).
    destruct (IH st1 st' Hrun) as (blocks & Hlen & Hblocks & Hlog).
    exists ((n, hd (set_time_payload env (transactions st)) q) :: blocks).
    split; [simpl; by f_equal|]. split; [by constructor|].
    rewrite Hlog, Hst1, transactions_of_poll_state. simpl. by rewrite <- app_assoc.
Qed.

(** X13: a cycle that completes has polled exactly the enabled inverters,
    in configuration order, each with one to four transactions that carry
    one payload; it has made no transaction for a disabled inverter and
    none out of turn. *)
Theorem main_loop_polls_enabled_in_order fuel env cfg st st' :
  4 ≤ fuel →
  main_loop compose_esb_packet decode_response fuel env cfg st = Ret () st' →
  ∃ blocks,
    length blocks
    = length (List.filter (λ inverter, negb (disabled inverter)) (inverters cfg))
    ∧ Forall (λ b : nat * list byte, 1 ≤ b.1 ≤ 4) blocks
    ∧ transactions_of (events st')
      = transactions_of (events st)
        ++ concat (zip_with (λ i (b : nat * list byte), replicate b.1 (serial i, b.2))
                     (List.filter (λ inverter, negb (disabled inverter)) (inverters cfg))
                     blocks).
Proof.
  intros Hfuel Hrun. unfold main_loop in Hrun.
  by apply (for_each_poll_ret fuel env cfg _ Hfuel st st').
Qed.

Lemma py_mod_negative_divisor (now loop_interval : Q) :
  (loop_interval < 0)%Q → (py_mod now loop_interval <= 0)%Q.
Proof.
  intros Hneg. unfold py_mod.
  assert (Hne : ¬ (loop_interval == 0)%Q) by (intros H; rewrite H in Hneg; by apply Qlt_irrefl in Hneg).
  pose proof (Qfloor_le (now / loop_interval)) as Hlo.
  assert (Hnow : (now == now / loop_interval * loop_interval)%Q)
    by (by rewrite Qmult_comm, Qmult_div_r).
  revert Hlo Hnow. generalize (inject_Z (Qfloor (now / loop_interval))) (now / loop_interval)%Q.
  intros f t Hlo Hnow. nra.
Qed.

(** X14: with a negative interval the process dies in its first sleep.
    When the first cycle completes at a time that is no multiple of the
    interval, [time.sleep] is given a negative length and raises
    ValueError; the handler of the loop catches KeyboardInterrupt only, so
    the error leaves the process and the radio is not powered down. *)
Theorem negative_interval_stops_loop fuel env cfg st st1 :
  0 < fuel →
  (interval cfg < 0)%Q →
  main_loop compose_esb_packet decode_response fuel env cfg st = Ret () st1 →
  ¬ (py_mod (clock env (cycles st1)) (interval cfg) == 0)%Q →
  guarded_poll_loop compose_esb_packet decode_response fuel env cfg st
  = Exc ValueError st1.
Proof.
  intros Hfuel Hneg Hloop Hrem.
  assert (Hcycle : poll_cycle compose_esb_packet decode_response fuel env cfg st
                   = Exc ValueError st1).
  { unfold poll_cycle. unfold mbind at 1, M_bind. rewrite Hloop.
    unfold mbind at 1, M_bind, get_state. unfold mbind at 1, M_bind.
    assert (Hnz : negb (Qeq_bool (interval cfg) 0) = true).
    { apply negb_true_iff. apply not_true_is_false. intros H%Qeq_bool_iff.
      rewrite H in Hneg. by apply Qlt_irrefl in Hneg. }
    rewrite Hnz. unfold sleep, sleep_length.
    destruct (Qlt_le_dec _ _) as [Hlt|Hge]; [done|]. exfalso. apply Hrem.
    apply Qle_antisym; [by apply py_mod_negative_divisor | done]. }
  unfold guarded_poll_loop, try_except, poll_forever.
  destruct fuel as [|fuel']; [lia|].
  rewrite while_loop_step by done. by rewrite Hcycle.
Qed.

(** X16: with a positive interval the sleep after a completed cycle
    cannot fail: its length is at least zero and less than the interval,
    it is logged once, and the cycle ends normally unless the sleep is
    interrupted. *)
Theorem poll_cycle_sleeps fuel env cfg st st1 :
  (0 < interval cfg)%Q →
  main_loop compose_esb_packet decode_response fuel env cfg st = Ret () st1 →
  poll_cycle compose_esb_packet decode_response fuel env cfg st
  = (if sleep_interrupt env (cycles st1)
     then Exc KeyboardInterrupt
            (log_event (EvSleep (sleep_length (clock env (cycles st1)) (interval cfg))) st1)
     else Ret ()
            (count_cycle
               (log_event (EvSleep (sleep_length (clock env (cycles st1)) (interval cfg)))
                  st1)))
  ∧ (0 <= sleep_length (clock env (cycles st1)) (interval cfg))%Q
  ∧ (sleep_length (clock env (cycles st1)) (interval cfg) < interval cfg)%Q.
Proof.
  intros Hpos Hloop.
  destruct (sleep_length_range (clock env (cycles st1)) (interval cfg) Hpos) as [Hlo Hhi].
  split; [|done].
  unfold poll_cycle. unfold mbind at 1, M_bind. rewrite Hloop.
  unfold mbind at 1, M_bind, get_state. unfold mbind at 1, M_bind.
  assert (Hnz : negb (Qeq_bool (interval cfg) 0) = true).
  { apply negb_true_iff. apply not_true_is_false. intros H%Qeq_bool_iff.
    rewrite H in Hpos. by apply Qlt_irrefl in Hpos. }
  rewrite Hnz. unfold sleep.
  destruct (Qlt_le_dec _ _) as [Hlt|Hge].
  { exfalso. by apply (Qlt_not_le _ _ Hlt). }
  run_monad. by destruct (sleep_interrupt env (cycles st1)).
Qed.

(** *** Further properties: from the bus to the radio *)

(** X18: an accepted command is transmitted in its turn.  After the
    listener queued it behind the [q] commands already waiting, as many
    polls of the inverter as there are entries transmit first those of
    [q], in order, and last the new frame, and leave the queue empty. *)
Theorem queued_command_is_polled_in_turn
    now client message st inverter p rest q fuel env cfg st2 :
  4 ≤ fuel →
  lookup_subscription (mqtt_command_topic_subs st) (topic message)
    = Some (str_of_int (serial inverter)) →
  command_queue st !! str_of_int (serial inverter) = Some q →
  expanded_text str_lower now (payload message) = Some p →
  validated p = true →
  fromhex p = Some (x80 :: rest) →
  for_each (replicate (length q + 1) inverter)
    (poll_inverter compose_esb_packet decode_response fuel env cfg)
    (final_state (mqtt_on_command frame_payload str_lower now client message st) st)
    = Ret () st2 →
  command_queue st2 !! str_of_int (serial inverter) = Some []
  ∧ ∃ ns, length ns = length q + 1
          ∧ Forall (λ n, 1 ≤ n ≤ 4) ns
          ∧ transactions_of (events st2)
            = transactions_of (events st)
              ++ concat (zip_with (λ n c, replicate n (serial inverter, c)) ns
                           (q ++ [frame_payload rest])).
Proof.
  intros Hfuel Hsub Hq Hexp Hval Hdec.
  rewrite (mqtt_on_command_expanded _ _ _ _ _ _ Hsub (str_of_int_nonempty _) Hexp).
  rewrite Hval, Hdec. simpl. rewrite Hq. simpl.
  set (st1 := set_command_queue _ st).
  replace (length q + 1) with (length (q ++ [frame_payload rest]))
    by (rewrite length_app; simpl; lia).
  intros Hrun.
  destruct (poll_inverter_fifo fuel env cfg inverter (q ++ [frame_payload rest]) Hfuel
              st1 [] st2) as (Hqueue & ns & Hlen & Hns & Hlog); [|done|].
  { subst st1. simpl. by rewrite lookup_insert_eq, app_nil_r. }
  split; [by rewrite Hqueue, lookup_insert_eq|].
  exists ns. split; [by rewrite Hlen, length_app, Nat.add_comm|]. by split.
Qed.

Lemma lookup_subscription_fmap (invs : list InverterConfig) t :
  lookup_subscription (subscription_item_of command_topic <$> invs) t
  = (λ i, str_of_int (serial i)) <$> List.find (λ i, bool_decide (command_topic i = t)) invs.
Proof.
  unfold lookup_subscription. induction invs as [|i invs IH]; [done|].
  simpl. case_bool_decide; [done|]. apply IH.
Qed.

(** X19: in a gateway started with the bus, a topic resolves to the
    serial of the first inverter with the raw-command flag whose command
    topic it is, and to nothing when there is none; inverters without the
    flag are not reachable by any topic. *)
Theorem startup_resolves_topics env cfg st t :
  mqtt_disabled cfg = false →
  startup env cfg initial_state = Ret () st →
  lookup_subscription (mqtt_command_topic_subs st) t
  = (λ i, str_of_int (serial i))
      <$> List.find (λ i, bool_decide (command_topic i = t)) (raw_inverters cfg).
Proof.
  intros Hbus Hrun. rewrite startup_run in Hrun. unfold mqtt_disabled in Hbus.
  destruct (mqtt cfg) as [[|]|]; [done| |done].
  destruct (mqtt_connect env); [|done]. destruct (radio_begin env); [|done].
  rewrite (for_each_register_with_client _ _ PahoClient) in Hrun by done.
  injection Hrun as <-. apply lookup_subscription_fmap.
Qed.

(** *** Further properties: the topics of a status record *)

Lemma u_String a (s : string) : u (String a s) = N_of_ascii a :: u s.
Proof. Transparent u. reflexivity. Qed.

#[local] Opaque u.

(** A printed number has no slash in it. *)
Lemma pretty_N_char_no_slash x : N_of_ascii (pretty_N_char x) ≠ 47%N.
Proof. unfold pretty_N_char. repeat case_match; vm_compute; discriminate. Qed.

Lemma pretty_N_go_no_slash x (s : string) :
  Forall (λ c, c ≠ 47%N) (u s) → Forall (λ c, c ≠ 47%N) (u (pretty_N_go x s)).
Proof.
  revert s. induction (N.lt_wf_0 x) as [x _ IH]; intros s Hs.
  destruct (decide (x = 0)%N) as [->|Hx]; [by rewrite pretty_N_go_0|].
  rewrite pretty_N_go_step by lia. apply IH; [apply N.div_lt; lia|].
  rewrite u_String. constructor; [apply pretty_N_char_no_slash | done].
Qed.

Lemma str_of_nat_no_slash n : Forall (λ c, c ≠ 47%N) (str_of_nat n).
Proof.
  unfold str_of_nat, pretty, pretty_nat, pretty, pretty_N.
  case_decide; [vm_compute; repeat constructor; discriminate|].
  apply pretty_N_go_no_slash. vm_compute. constructor.
Qed.

(** Two texts that agree, each a slash-free part followed by a part that
    starts with a slash, agree part by part. *)
Lemma split_at_slash (l1 l2 r1 r2 : pystr) :
  Forall (λ c, c ≠ 47%N) l1 → Forall (λ c, c ≠ 47%N) l2 →
  l1 ++ 47%N :: r1 = l2 ++ 47%N :: r2 → l1 = l2 ∧ r1 = r2.
Proof.
  revert l2. induction l1 as [|c l1 IH]; intros [|d l2] H1 H2 Heq; simpl in *.
  - by injection Heq as ->.
  - injection Heq as <- _. by inversion H2.
  - injection Heq as -> _. by inversion H1.
  - injection Heq as -> Heq. inversion H1; inversion H2; subst.
    destruct (IH l2) as [-> ->]; done.
Qed.

Lemma numbered_topic_inj i j (f g : pystr) :
  str_of_nat i ++ 47%N :: f = str_of_nat j ++ 47%N :: g → i = j ∧ f = g.
Proof.
  intros [Hij ->]%split_at_slash; [|apply str_of_nat_no_slash..].
  split; [by apply str_of_nat_inj | done].
Qed.

Lemma fmap_concat_imap {A B C} (h : B → C) (f : nat → A → list B) (l : list A) :
  h <$> concat (imap f l) = concat (imap (λ i x, h <$> f i x) l).
Proof.
  revert f. induction l as [|x l IH]; intros f; [done|].
  simpl. by rewrite fmap_app, IH.
Qed.

Lemma NoDup_concat_imap {A B} (f : nat → A → list B) (l : list A) :
  (∀ i x, NoDup (f i x)) →
  (∀ i j x y z, z ∈ f i x → z ∈ f j y → i = j) →
  NoDup (concat (imap f l)).
Proof.
  revert f. induction l as [|x l IH]; intros f Hnd Hdisj; simpl; [constructor|].
  apply NoDup_app. split; [apply Hnd|]. split.
  - intros z Hz (j & y & _ & Hz')%elem_of_concat_imap.
    by pose proof (Hdisj _ _ _ _ _ Hz Hz').
  - apply IH; [intros; apply Hnd|].
    intros i j x' y z Hz Hz'. by injection (Hdisj _ _ _ _ _ Hz Hz').
Qed.

Ltac topic_clash :=
  repeat match goal with
         | H : _ ∈ _ :: _ |- _ => apply elem_of_cons in H as [H|H]
         | H : _ ∈ [] |- _ => by apply elem_of_nil in H
         end;
  subst;
  repeat match goal with
         | H : ?r ++ _ = ?r ++ _ |- _ => apply app_inv_head in H
         end;
  literals; simpl in *;
  repeat match goal with
         | H : ?a :: _ = ?a :: _ |- _ => injection H as H
         end.

Lemma status_publishes_topics_NoDup root data :
  NoDup (status_publishes root data).*1.
Proof.
  unfold status_publishes. rewrite !fmap_app, !fmap_concat_imap.
  apply NoDup_app. split; [|split; [|apply NoDup_app; split; [|split]]].
  - apply NoDup_concat_imap.
    + intros i ph. unfold phase_publishes. simpl.
      repeat (constructor; [intros H; topic_clash; discriminate|]). constructor.
    + intros i j ph ph' z Hz Hz'. unfold phase_publishes in *. simpl in *.
      topic_clash;
        match goal with
        | H : _ ++ _ = _ ++ _ |- _ => by apply numbered_topic_inj in H as [? _]
        end.
  - intros z (i & ph & _ & Hz)%elem_of_concat_imap [Hz'|Hz']%elem_of_app.
    + apply elem_of_concat_imap in Hz' as (j & s & _ & Hz').
      unfold phase_publishes, string_publishes in *. simpl in *.
      topic_clash; discriminate.
    + unfold phase_publishes in *. simpl in *. topic_clash; discriminate.
  - apply NoDup_concat_imap.
    + intros i s. unfold string_publishes. simpl.
      repeat (constructor; [intros H; topic_clash; discriminate|]). constructor.
    + intros i j s s' z Hz Hz'. unfold string_publishes in *. simpl in *.
      topic_clash;
        match goal with
        | H : _ ++ _ = _ ++ _ |- _ => by apply numbered_topic_inj in H as [? _]
        end.
  - intros z (i & s & _ & Hz)%elem_of_concat_imap Hz'.
    unfold string_publishes in *. simpl in *. topic_clash; discriminate.
  - simpl. repeat (constructor; [intros H; topic_clash; discriminate|]). constructor.
Qed.

(** X17: the publish calls [mqtt_send_status] makes for one status record
    go to pairwise distinct topics, whatever the topic root and however
    many phases and strings the record has: no reading is overwritten by
    another on the bus. *)
Theorem status_topics_distinct broker inverter_ser data topic st :
  ∃ pubs,
    mqtt_send_status broker inverter_ser data topic st
    = Ret () (log_events (publish_event <$> pubs) st)
    ∧ NoDup pubs.*1.
Proof.
  exists (status_publishes (status_topic inverter_ser topic) data).
  split; [apply mqtt_send_status_run | apply status_publishes_topics_NoDup].
Qed.

End GatewayProperties.

(** ** The properties on the sample installation *)

Example startup_sample : startup sample_env sample_cfg initial_state = Ret () started.
Proof. vm_compute. reflexivity. Qed.

Lemma started_invariant : subscriptions_have_queues started.
Proof. apply (startup_invariant sample_env sample_cfg). apply startup_sample. Qed.

Lemma mqtt_on_command_unknown_topic_witness :
  mqtt_on_command frame_stub ascii_lower sample_now PahoClient message_unknown started
    = Exc UnboundLocalError started
  ∧ command_queue
      (final_state
         (mqtt_on_command frame_stub ascii_lower sample_now PahoClient message_unknown
            started) started)
    = command_queue started.
Proof.
  apply (mqtt_on_command_unknown_topic frame_stub ascii_lower).
  apply Forall_forall. vm_compute. repeat constructor; discriminate.
Defined.

Lemma poll_inverter_attempts_witness :
  ∃ n,
    poll_inverter esb_stub decode_stub 4 sample_env sample_cfg inverter_a queued ≠ OutOfFuel
    ∧ n ≤ 4
    ∧ transactions
        (final_state (poll_inverter esb_stub decode_stub 4 sample_env sample_cfg inverter_a
                        queued) queued)
      = transactions queued + n
    ∧ length (transactions_of
                (events
                   (final_state
                      (poll_inverter esb_stub decode_stub 4 sample_env sample_cfg inverter_a
                         queued) queued)))
      = length (transactions_of (events queued)) + n
    ∧ ∀ k, k < n → extracts (rx_script sample_env (transactions queued + k)) = true →
           n = S k.
Proof. apply (poll_inverter_attempts esb_stub decode_stub 4). lia. Defined.

Lemma mqtt_on_command_enqueues_witness :
  ∃ q, command_queue started !! str_of_int 114172220003 = Some q
  ∧ mqtt_on_command frame_stub ascii_lower sample_now PahoClient message_a started
    = Ret () (set_command_queue
                (<[str_of_int 114172220003 := q ++ [frame_stub sample_rest]]>
                   (command_queue started)) started).
Proof.
  apply (mqtt_on_command_enqueues frame_stub ascii_lower sample_now PahoClient message_a
           started (str_of_int 114172220003) sample_text sample_rest).
  - apply started_invariant.
  - vm_compute. reflexivity.
  - vm_compute. reflexivity.
  - vm_compute. lia.
  - exists 15. vm_compute. reflexivity.
  - apply (bool_decide_unpack (Forall (λ c, is_lower_hex c = true) sample_text)).
    vm_compute. exact I.
  - vm_compute. reflexivity.
Defined.

Lemma mqtt_on_command_rejects_witness :
  final_state
    (mqtt_on_command frame_stub ascii_lower sample_now PahoClient message_not_hex started)
    started = started.
Proof.
  apply (mqtt_on_command_rejects frame_stub ascii_lower sample_now PahoClient
           message_not_hex started (u "80g0")).
  - vm_compute. reflexivity.
  - right. right. left.
    apply (bool_decide_unpack (Exists (λ c, is_lower_hex c = false) (u "80g0"))).
    vm_compute. exact I.
Defined.

Lemma poll_cycle_consumes_head_witness :
  (∀ st',
     main_loop esb_stub decode_stub 4 sample_env_quiet sample_cfg queued_twice = Ret () st' →
     command_queue st' !! str_of_int (serial inverter_a) = Some [frame_stub [x11]])
  ∧ command_queue
      (final_state
         (poll_cycles esb_stub decode_stub 4 sample_env_quiet sample_cfg 2 queued_twice)
         queued_twice)
      !! str_of_int (serial inverter_a) = Some []
  ∧ ∃ ns, length ns = 2
          ∧ Forall (λ n, 1 ≤ n ≤ 4) ns
          ∧ transactions_for (serial inverter_a)
              (events
                 (final_state
                    (poll_cycles esb_stub decode_stub 4 sample_env_quiet sample_cfg 2
                       queued_twice) queued_twice))
            = transactions_for (serial inverter_a) (events queued_twice)
              ++ concat (zip_with (λ n c, replicate n (serial inverter_a, c)) ns
                           [frame_stub sample_rest; frame_stub [x11]]).
Proof.
  destruct (poll_cycle_consumes_head esb_stub decode_stub 4 sample_env_quiet sample_cfg
              inverter_a queued_twice [frame_stub sample_rest; frame_stub [x11]])
    as (_ & Hcycle & Hcycles).
  - lia.
  - left.
  - reflexivity.
  - apply (bool_decide_unpack (NoDup (serial <$> inverters sample_cfg))).
    vm_compute. exact I.
  - vm_compute. reflexivity.
  - split.
    + intros st' Hrun. destruct (Hcycle st' Hrun) as [Hq _]. exact Hq.
    + apply (Hcycles [frame_stub sample_rest; frame_stub [x11]] []).
      * reflexivity.
      * vm_compute. reflexivity.
Defined.

(** The status record of the sample, with 3 phases and 2 DC strings, is
    published in 3 * 3 + 4 * 2 + 2 = 19 calls; the total of the first
    string, 1234000, is published as 1234. *)
Example sample_status_publishes :
  length (publishes_of
            (events (final_state
                       (mqtt_send_status PahoClient 114172220003 sample_status None
                          initial_state) initial_state))) = 19
  ∧ (u "hoymiles/114172220003/emeter-dc/0/total", (1234000 / 1000)%Q)
      ∈ publishes_of
          (events (final_state
                     (mqtt_send_status PahoClient 114172220003 sample_status None
                        initial_state) initial_state))
  ∧ (1234000 / 1000 == 1234)%Q.
Proof.
  split; [vm_compute; reflexivity|]. split; [|reflexivity].
  apply list_elem_of_lookup. exists 9. vm_compute. reflexivity.
Qed.

Lemma interrupt_powers_down_witness :
  guarded_poll_loop esb_stub decode_stub 4 sample_env sample_cfg queued
    = Exc SystemExit
        (log_event EvPowerDown
           (final_state (poll_forever esb_stub decode_stub 4 sample_env sample_cfg queued)
              queued))
  ∧ events
      (log_event EvPowerDown
         (final_state (poll_forever esb_stub decode_stub 4 sample_env sample_cfg queued)
            queued))
    = events
        (final_state (poll_forever esb_stub decode_stub 4 sample_env sample_cfg queued)
           queued) ++ [EvPowerDown].
Proof.
  apply (interrupt_powers_down esb_stub decode_stub 4 sample_env sample_cfg queued).
  vm_compute. reflexivity.
Defined.

(** C10, the claim as stated: the bus is disabled and both inverters have
    the raw-command flag, yet start-up never reaches [subscribe]: the radio
    does not open and RuntimeError is raised first. *)
Lemma startup_radio_failure_first :
  mqtt_disabled sample_cfg_no_bus = true
  ∧ Exists (λ i, send_raw_enabled i = true) (inverters sample_cfg_no_bus)
  ∧ startup sample_env_no_radio sample_cfg_no_bus initial_state
    = Exc RuntimeError initial_state
  ∧ ¬ ∃ st, startup sample_env_no_radio sample_cfg_no_bus initial_state
            = Exc AttributeError st.
Proof.
  split; [done|]. split; [by left|]. split; [vm_compute; reflexivity|].
  intros [st H]. vm_compute in H. discriminate.
Qed.

Lemma startup_without_bus_client_witness :
  ∃ e st,
    main esb_stub decode_stub 4 sample_env sample_cfg_no_bus initial_state = Exc e st
    ∧ (e = AttributeError ∨ e = RuntimeError)
    ∧ events st = [] ∧ transactions st = 0.
Proof.
  destruct (startup_without_bus_client esb_stub decode_stub sample_env sample_cfg_no_bus)
    as (Hmain & _ & _).
  - reflexivity.
  - left. reflexivity.
  - apply (Hmain 4).
Defined.

(** With the radio open, start-up stops at inverter A, the first one with
    the raw-command flag: its queue exists, nothing is subscribed. *)
Example startup_sample_no_bus :
  startup sample_env sample_cfg_no_bus initial_state
  = Exc AttributeError
      (set_command_queue (registered_queues [inverter_a] ∅) initial_state).
Proof. vm_compute. reflexivity. Qed.

(** C3: the cycle of the sample ends at 1003 s with an interval of 10 s.
    The process then sleeps 1003 mod 10 = 3 s, not the 10 - 3 = 7 s that
    would end the sleep on a multiple of the interval. *)
Theorem sleep_is_now_mod_interval :
  last (events
          (final_state (poll_cycle esb_stub decode_stub 4 sample_env sample_cfg started)
             started))
  = Some (EvSleep 3)
  ∧ (interval sample_cfg - py_mod (clock sample_env 0) (interval sample_cfg) == 7)%Q
  ∧ ¬ (sleep_length (clock sample_env 0) (interval sample_cfg)
       == interval sample_cfg - py_mod (clock sample_env 0) (interval sample_cfg))%Q.
Proof.
  split; [vm_compute; reflexivity|]. split; [vm_compute; reflexivity|].
  vm_compute. discriminate.
Qed.

(** C9: a payload of three hex digits and a newline passes the length,
    parity and pattern checks, although it is no hex string; it reaches
    [bytes.fromhex], which raises ValueError. *)
Theorem newline_passes_validation :
  expanded_text ascii_lower sample_now (payload message_newline) = Some (u "800" ++ [10%N])
  ∧ validated (u "800" ++ [10%N]) = true
  ∧ ¬ Forall (λ c, is_lower_hex c = true) (u "800" ++ [10%N])
  ∧ fromhex (u "800" ++ [10%N]) = None
  ∧ mqtt_on_command frame_stub ascii_lower sample_now PahoClient message_newline started
    = Exc ValueError started.
Proof.
  split; [vm_compute; reflexivity|]. split; [vm_compute; reflexivity|].
  split; [|split; vm_compute; reflexivity].
  intros H. apply Forall_forall with (x := 10%N) in H; [discriminate|].
  vm_compute. do 3 right. left.
Qed.

(** ** The further properties on the sample installation *)

Lemma startup_with_bus_witness :
  startup sample_env sample_cfg initial_state
  = Ret ()
      {| command_queue := registered_queues (inverters sample_cfg) ∅;
         mqtt_command_topic_subs :=
           subscription_item_of command_topic <$> raw_inverters sample_cfg;
         mqtt_client := Some PahoClient;
         events := EvConnect
                   :: ((λ i, EvSubscribe (command_topic i)) <$> raw_inverters sample_cfg);
         transactions := 0;
         cycles := 0 |}.
Proof. apply (startup_with_bus sample_env sample_cfg); reflexivity. Defined.

Lemma startup_creates_queues_witness :
  command_queue started !! str_of_int 114172220004
  = if bool_decide (Exists (λ i, str_of_int (serial i) = str_of_int 114172220004)
                      (inverters sample_cfg))
    then Some [] else None.
Proof. apply (startup_creates_queues sample_env sample_cfg). apply startup_sample. Defined.

Lemma mqtt_on_command_exceptions_witness :
  started = started
  ∧ (UnboundLocalError = UnboundLocalError ∨ UnboundLocalError = UnicodeDecodeError
     ∨ UnboundLocalError = StructError ∨ UnboundLocalError = ValueError).
Proof.
  apply (mqtt_on_command_exceptions frame_stub ascii_lower sample_now PahoClient
           message_unknown started).
  - apply started_invariant.
  - vm_compute. reflexivity.
Defined.

Lemma mqtt_on_command_clock_out_of_range_witness :
  mqtt_on_command frame_stub ascii_lower sample_late PahoClient message_a started
  = Exc StructError started.
Proof.
  apply (mqtt_on_command_clock_out_of_range frame_stub ascii_lower sample_late PahoClient
           message_a started (str_of_int 114172220003) sample_template).
  - apply started_invariant.
  - vm_compute. reflexivity.
  - vm_compute. reflexivity.
  - right. vm_compute. discriminate.
Defined.

Lemma mqtt_on_command_value_error_witness :
  mqtt_on_command frame_stub ascii_lower sample_now PahoClient message_newline started
    = Exc ValueError started
  ↔ validated (u "800" ++ [10%N]) = true ∧ last (u "800" ++ [10%N]) = Some 10%N.
Proof.
  apply (mqtt_on_command_value_error frame_stub ascii_lower sample_now PahoClient
           message_newline started (str_of_int 114172220003)).
  - apply started_invariant.
  - vm_compute. reflexivity.
  - vm_compute. reflexivity.
Defined.

Lemma mqtt_on_command_time_template_witness :
  ∃ q, command_queue started !! str_of_int 114172220003 = Some q
  ∧ mqtt_on_command frame_stub ascii_lower sample_now PahoClient message_a started
    = Ret () (set_command_queue
                (<[str_of_int 114172220003 :=
                     q ++ [frame_stub ([x0b; x00] ++ sample_packed
                                       ++ [x00; x00; x00; x05; x00; x00; x00; x00])]]>
                   (command_queue started)) started).
Proof.
  apply (mqtt_on_command_time_template frame_stub ascii_lower sample_now PahoClient
           message_a started (str_of_int 114172220003) sample_template).
  - apply started_invariant.
  - vm_compute. reflexivity.
  - vm_compute. reflexivity.
  - vm_compute. reflexivity.
  - vm_compute. reflexivity.
  - vm_compute. lia.
Defined.

Lemma sample_env_deaf_uninterrupted n : RxInterrupt ∉ rx_script sample_env_deaf n.
Proof.
  simpl. intros H.
  repeat (apply elem_of_cons in H as [H|H]; [discriminate|]). by apply elem_of_nil in H.
Qed.

Lemma poll_inverter_retries_witness :
  ∃ n,
    1 ≤ n ≤ 4
    ∧ transactions
        (final_state
           (poll_inverter esb_stub decode_stub 4 sample_env_quiet sample_cfg inverter_a
              queued) queued)
      = transactions queued + n
    ∧ transactions_of
        (events
           (final_state
              (poll_inverter esb_stub decode_stub 4 sample_env_quiet sample_cfg inverter_a
                 queued) queued))
      = transactions_of (events queued)
        ++ replicate n (serial inverter_a,
                        hd (set_time_payload sample_env_quiet (transactions queued))
                           [frame_stub sample_rest])
    ∧ (∀ k, k + 1 < n →
            extracts (rx_script sample_env_quiet (transactions queued + k)) = false)
    ∧ (n < 4 →
       extracts (rx_script sample_env_quiet (transactions queued + (n - 1))) = true).
Proof.
  apply (poll_inverter_retries esb_stub decode_stub 4 sample_env_quiet sample_cfg
           inverter_a queued [frame_stub sample_rest]).
  - lia.
  - vm_compute. reflexivity.
  - vm_compute. reflexivity.
Defined.

Lemma poll_inverter_command_lost_witness :
  poll_inverter esb_stub decode_stub 4 sample_env_deaf sample_cfg inverter_a queued
  = Ret ()
      (add_transactions 4
         (log_events
            (replicate 4 (EvTransaction (dtu_serial sample_cfg) (serial inverter_a)
                            (frame_stub sample_rest)))
            (set_command_queue
               (<[str_of_int (serial inverter_a) := []]> (command_queue queued)) queued))).
Proof.
  apply (poll_inverter_command_lost esb_stub decode_stub 4 sample_env_deaf sample_cfg
           inverter_a queued).
  - lia.
  - vm_compute. reflexivity.
  - intros k _. apply sample_env_deaf_uninterrupted.
  - intros k _. reflexivity.
Defined.

Lemma poll_inverter_publishes_status_witness :
  poll_inverter esb_stub decode_stub 4 sample_env_prompt sample_cfg inverter_a queued
  = Ret ()
      (log_events
         (publish_event <$>
            status_publishes (status_topic (serial inverter_a) (mqtt_topic inverter_a))
              sample_status)
         (add_transactions 1
            (log_events
               [EvTransaction (dtu_serial sample_cfg) (serial inverter_a)
                  (hd (set_time_payload sample_env_prompt (transactions queued))
                     [frame_stub sample_rest])]
               (set_command_queue
                  (<[str_of_int (serial inverter_a) := tl [frame_stub sample_rest]]>
                     (command_queue queued)) queued)))).
Proof.
  apply (poll_inverter_publishes_status esb_stub decode_stub 4 sample_env_prompt sample_cfg
           inverter_a queued [frame_stub sample_rest] PahoClient [x95; x01] sample_status).
  - lia.
  - vm_compute. reflexivity.
  - simpl. intros H.
    repeat (apply elem_of_cons in H as [H|H]; [discriminate|]). by apply elem_of_nil in H.
  - reflexivity.
  - discriminate.
  - reflexivity.
  - reflexivity.
Defined.

(** The monitoring installation receives a status in its first cycle and
    is interrupted in the second: three transactions, no publish call. *)
Lemma poll_loop_without_client_is_silent_witness :
  guarded_poll_loop esb_stub decode_stub 4 sample_env sample_cfg_monitor started_monitor
  = Exc SystemExit
      (final_state
         (guarded_poll_loop esb_stub decode_stub 4 sample_env sample_cfg_monitor
            started_monitor) started_monitor)
  ∧ length
      (transactions_of
         (events
            (final_state
               (guarded_poll_loop esb_stub decode_stub 4 sample_env sample_cfg_monitor
                  started_monitor) started_monitor))) = 3
  ∧ publishes_of
      (events
         (final_state
            (guarded_poll_loop esb_stub decode_stub 4 sample_env sample_cfg_monitor
               started_monitor) started_monitor))
    = publishes_of (events started_monitor)
  ∧ mqtt_client
      (final_state
         (guarded_poll_loop esb_stub decode_stub 4 sample_env sample_cfg_monitor
            started_monitor) started_monitor)
    = None.
Proof.
  split; [vm_compute; reflexivity|]. split; [vm_compute; reflexivity|].
  destruct (poll_loop_without_client_is_silent esb_stub decode_stub 4 sample_env
              sample_cfg_monitor started_monitor) as [Hexit _].
  - reflexivity.
  - apply (Hexit SystemExit). vm_compute. reflexivity.
Defined.

Lemma main_loop_polls_enabled_in_order_witness :
  ∃ blocks,
    length blocks
    = length (List.filter (λ inverter, negb (disabled inverter)) (inverters sample_cfg))
    ∧ Forall (λ b : nat * list byte, 1 ≤ b.1 ≤ 4) blocks
    ∧ transactions_of
        (events
           (final_state (main_loop esb_stub decode_stub 4 sample_env_quiet sample_cfg queued)
              queued))
      = transactions_of (events queued)
        ++ concat (zip_with (λ i (b : nat * list byte), replicate b.1 (serial i, b.2))
                     (List.filter (λ inverter, negb (disabled inverter))
                        (inverters sample_cfg)) blocks).
Proof.
  apply (main_loop_polls_enabled_in_order esb_stub decode_stub 4 sample_env_quiet
           sample_cfg queued).
  - lia.
  - vm_compute. reflexivity.
Defined.

Lemma negative_interval_stops_loop_witness :
  guarded_poll_loop esb_stub decode_stub 1 sample_env sample_cfg_negative initial_state
  = Exc ValueError initial_state.
Proof.
  apply (negative_interval_stops_loop esb_stub decode_stub 1 sample_env sample_cfg_negative
           initial_state initial_state).
  - lia.
  - reflexivity.
  - reflexivity.
  - vm_compute. discriminate.
Defined.

Lemma guarded_poll_loop_exit_witness :
  ∃ st',
    poll_forever esb_stub decode_stub 4 sample_env sample_cfg queued
      = Exc KeyboardInterrupt st'
    ∧ final_state (guarded_poll_loop esb_stub decode_stub 4 sample_env sample_cfg queued)
        queued
      = log_event EvPowerDown st'.
Proof.
  apply (guarded_poll_loop_exit esb_stub decode_stub 4 sample_env sample_cfg queued).
  vm_compute. reflexivity.
Defined.

Lemma poll_cycle_sleeps_witness :
  poll_cycle esb_stub decode_stub 4 sample_env sample_cfg queued
  = Ret ()
      (count_cycle
         (log_event (EvSleep (sleep_length 1003 10))
            (final_state (main_loop esb_stub decode_stub 4 sample_env sample_cfg queued)
               queued)))
  ∧ (0 <= sleep_length 1003 10)%Q ∧ (sleep_length 1003 10 < 10)%Q.
Proof.
  apply (poll_cycle_sleeps esb_stub decode_stub 4 sample_env sample_cfg queued
           (final_state (main_loop esb_stub decode_stub 4 sample_env sample_cfg queued)
              queued)).
  - reflexivity.
  - vm_compute. reflexivity.
Defined.

(** The second command arrives while the first is still waiting: two polls
    transmit the first, then the second. *)
Lemma queued_command_is_polled_in_turn_witness :
  command_queue
    (final_state
       (for_each (replicate 2 inverter_a)
          (poll_inverter esb_stub decode_stub 4 sample_env_quiet sample_cfg) queued_twice)
       queued_twice)
    !! str_of_int (serial inverter_a) = Some []
  ∧ ∃ ns, length ns = 2
          ∧ Forall (λ n, 1 ≤ n ≤ 4) ns
          ∧ transactions_of
              (events
                 (final_state
                    (for_each (replicate 2 inverter_a)
                       (poll_inverter esb_stub decode_stub 4 sample_env_quiet sample_cfg)
                       queued_twice) queued_twice))
            = transactions_of (events queued)
              ++ concat (zip_with (λ n c, replicate n (serial inverter_a, c)) ns
                           ([frame_stub sample_rest] ++ [frame_stub [x11]])).
Proof.
  apply (queued_command_is_polled_in_turn frame_stub esb_stub decode_stub ascii_lower
           sample_now PahoClient message_a_second queued inverter_a (u "8011") [x11]
           [frame_stub sample_rest] 4 sample_env_quiet sample_cfg).
  - lia.
  - vm_compute. reflexivity.
  - vm_compute. reflexivity.
  - vm_compute. reflexivity.
  - vm_compute. reflexivity.
  - vm_compute. reflexivity.
  - vm_compute. reflexivity.
Defined.

Lemma startup_resolves_topics_witness :
  lookup_subscription (mqtt_command_topic_subs started) (u "roof/command")
  = (λ i, str_of_int (serial i))
      <$> List.find (λ i, bool_decide (command_topic i = u "roof/command"))
            (raw_inverters sample_cfg).
Proof.
  apply (startup_resolves_topics sample_env sample_cfg started).
  - reflexivity.
  - apply startup_sample.
Defined.
